(** * swiftly.cli.cli: the command-line dispatcher of Swiftly

    A shallow embedding of [src/swiftly/cli/cli.py] (class [CLI]): option
    resolution from flags and environment, selection of the client manager,
    sub-command dispatch with its error-to-exit-code mapping, and the
    verbose logger.  The source is Python 2 (it uses [xrange]), so strings
    are byte strings ([string] of 8-bit [ascii]) and the builtins follow
    CPython 2.7. *)

From Stdlib Require Import ZArith NArith Ascii String List Lia Bool.
From Stdlib Require Import PrimFloat FloatOps SpecFloat.
From Stdlib Require Import DecimalString.
From stdpp Require Import gmap strings.

Local Open Scope Z_scope.

(** ** Python builtins used by the module *)

Module Py.

(** Python values that reach the dispatcher: option values, arguments of
    diagnostic calls. *)
Inductive pyval : Type :=
| PyNone
| PyBool (b : bool)
| PyInt (z : Z)
| PyStr (s : string).

(** Truth value of [if v:]. *)
Definition truthy (v : pyval) : bool :=
  match v with
  | PyNone => false
  | PyBool b => b
  | PyInt z => negb (z =? 0)
  | PyStr s => negb (String.eqb s "")
  end.

Definition newline : string := String (ascii_of_nat 10) EmptyString.

Definition code (c : ascii) : N := N_of_ascii c.

(** [str.lower()] on a byte string (C locale): only A-Z change. *)
Definition lower_char (c : ascii) : ascii :=
  if (65 <=? code c)%N && (code c <=? 90)%N
  then ascii_of_N (code c + 32) else c.

Fixpoint lower (s : string) : string :=
  match s with
  | EmptyString => EmptyString
  | String c s' => String (lower_char c) (lower s')
  end.

(** Decimal rendering of a natural number, as [str(n)] / [%d]. *)
Definition dec_of_N (n : N) : string := NilZero.string_of_uint (N.to_uint n).

Definition str_of_Z (z : Z) : string :=
  match z with
  | Zneg p => "-" +:+ dec_of_N (Npos p)
  | _ => dec_of_N (Z.to_N z)
  end.

(** *** [repr] of a byte string ([string_repr] of CPython 2) *)

Fixpoint contains (c : ascii) (s : string) : bool :=
  match s with
  | EmptyString => false
  | String d s' => Ascii.eqb c d || contains c s'
  end.

Definition hex_digit (n : N) : ascii :=
  if (n <? 10)%N then ascii_of_N (48 + n) else ascii_of_N (87 + n).

Definition dquote : ascii := ascii_of_nat 34.

Definition quote_for (s : string) : ascii :=
  if contains "'" s && negb (contains dquote s) then dquote else "'"%char.

Definition repr_char (q c : ascii) : string :=
  if Ascii.eqb c q || Ascii.eqb c "\"
  then String "\" (String c EmptyString)
  else if (code c =? 9)%N then "\t"
  else if (code c =? 10)%N then "\n"
  else if (code c =? 13)%N then "\r"
  else if (code c <? 32)%N || (127 <=? code c)%N
  then String "\" (String "x"
         (String (hex_digit (code c / 16))
            (String (hex_digit (code c mod 16)) EmptyString)))
  else String c EmptyString.

Fixpoint repr_body (q : ascii) (s : string) : string :=
  match s with
  | EmptyString => EmptyString
  | String c s' => repr_char q c +:+ repr_body q s'
  end.

Definition repr_str (s : string) : string :=
  let q := quote_for s in
  String q (repr_body q s +:+ String q EmptyString).

(** *** [repr] and [str] of values *)

Fixpoint join (sep : string) (l : list string) : string :=
  match l with
  | [] => ""
  | [x] => x
  | x :: l' => x +:+ sep +:+ join sep l'
  end.

Definition repr (v : pyval) : string :=
  match v with
  | PyNone => "None"
  | PyBool true => "True"
  | PyBool false => "False"
  | PyInt z => str_of_Z z
  | PyStr s => repr_str s
  end.

(** [repr] of the tuple that [*args] collects. *)
Definition repr_tuple (vs : list pyval) : string :=
  match vs with
  | [x] => "(" +:+ repr x +:+ ",)"
  | _ => "(" +:+ join ", " (map repr vs) +:+ ")"
  end.

(** *** [int(s)] on a byte string, base 10

    Surrounding white space is skipped, one sign is allowed (CPython 2
    also skips white space after it), and at least one decimal digit
    must follow; anything else is a [ValueError] ([None] here). *)

Definition is_space (c : ascii) : bool :=
  (code c =? 32)%N || ((9 <=? code c)%N && (code c <=? 13)%N).

Definition is_digit (c : ascii) : bool :=
  (48 <=? code c)%N && (code c <=? 57)%N.

Fixpoint lstrip (s : string) : string :=
  match s with
  | String c s' => if is_space c then lstrip s' else s
  | EmptyString => EmptyString
  end.

Fixpoint all_space (s : string) : bool :=
  match s with
  | EmptyString => true
  | String c s' => is_space c && all_space s'
  end.

(** Reads the digits of [s] into [acc]; the rest must be white space. *)
Fixpoint digits_then_space (s : string) (acc : N) (seen : bool) : option N :=
  match s with
  | EmptyString => if seen then Some acc else None
  | String c s' =>
      if is_digit c then digits_then_space s' (acc * 10 + (code c - 48))%N true
      else if seen && all_space s then Some acc else None
  end.

Definition int_of_str (s : string) : option Z :=
  match lstrip s with
  | String "-" s' => (fun n => - Z.of_N n) <$> digits_then_space (lstrip s') 0%N false
  | String "+" s' => Z.of_N <$> digits_then_space (lstrip s') 0%N false
  | s' => Z.of_N <$> digits_then_space s' 0%N false
  end.

(** *** Comparison of byte strings ([a >= b]) *)

Fixpoint str_ge (a b : string) : bool :=
  match a, b with
  | _, EmptyString => true
  | EmptyString, String _ _ => false
  | String c a', String d b' =>
      if (code d <? code c)%N then true
      else if (code c <? code d)%N then false
      else str_ge a' b'
  end.

(** *** ['%.02f' % x]

    The exact binary value is rounded to two decimals, ties to even. *)

Definition round_half_even (num den : Z) : Z :=
  let q := num / den in
  let r := num mod den in
  if 2 * r <? den then q
  else if den <? 2 * r then q + 1
  else if Z.even q then q else q + 1.

(** Hundredths of [m * 2^e], rounded. *)
Definition hundredths (m : positive) (e : Z) : Z :=
  if 0 <=? e then Zpos m * 2 ^ e * 100
  else round_half_even (Zpos m * 100) (2 ^ (- e)).

Definition two_digits (n : N) : string :=
  String (ascii_of_N (48 + n / 10)) (String (ascii_of_N (48 + n mod 10)) EmptyString).

Definition fixed2 (h : Z) : string :=
  dec_of_N (Z.to_N (h / 100)) +:+ "." +:+ two_digits (Z.to_N (h mod 100)).

Definition format_02f (x : float) : string :=
  match Prim2SF x with
  | S754_zero s => (if s then "-" else "") +:+ "0.00"
  | S754_infinity s => if s then "-inf" else "inf"
  | S754_nan => "nan"
  | S754_finite s m e => (if s then "-" else "") +:+ fixed2 (hundredths m e)
  end.

Definition is_finite (x : float) : bool :=
  match Prim2SF x with
  | S754_zero _ | S754_finite _ _ _ => true
  | _ => false
  end.

End Py.

Import Py.

(** ** Failures, streams and the shared context *)

(** The attribute [text] of a raised object: missing, [None], or a
    string (as [swiftly.cli.command.ReturnCode] sets it). *)
Inductive text_attr : Type :=
| NoText
| TextNone
| Text (s : string).

(** A raised object, with what the dispatcher looks at. *)
Record exc : Type := mk_exc {
  exc_class : string;        (* name of its class *)
  exc_str : string;          (* str(err) *)
  exc_text : text_attr;      (* the attribute [text] *)
  exc_code : option Z;       (* the attribute [code], when there is one *)
  exc_frames : string        (* its stack entries, as traceback prints them *)
}.

Definition ValueError (msg : string) : exc := mk_exc "ValueError" msg NoText None "".
Definition TypeError (msg : string) : exc := mk_exc "TypeError" msg NoText None "".
Definition IndexError (msg : string) : exc := mk_exc "IndexError" msg NoText None "".

(** [traceback.format_exc()] inside an [except] block. *)
Definition format_exc (err : exc) : string :=
  "Traceback (most recent call last):" +:+ newline +:+ exc_frames err +:+
  exc_class err +:+
  (if String.eqb (exc_str err) "" then "" else ": " +:+ exc_str err) +:+ newline.

(** Modelled from the spec: [swiftly.cli.iomanager.IOManager] is not in
    src/.  The spec speaks of the diagnostic error stream and of the
    diagnostic stream: here, what [with_stderr()] and
    [with_debug(skip_sub_command=...)] hand out. *)
Inductive stream : Type :=
| Stderr
| Debug (skip_sub_command : bool).

(** What an invocation does to the outside, in order. *)
Inductive event : Type :=
| EWrite (fp : stream) (s : string)
| EFlush (fp : stream)
| EPrintVersion
| EPrintHelp
| EParserError
| EInvoke (name : string) (args : list string)
| EOutput (s : string).

(** [self._verbose], and
    [functools.partial(self._verbose, skip_sub_command=True)]. *)
Inductive callback : Type :=
| Verbose (skip_sub_command : bool).

Inductive subprocess_mod : Type :=
| GreenSubprocess
| Subprocess.

(** Modelled from the spec: [swiftly.client.ClientManager] is not in
    src/.  Spec 4.5 step 6: a direct factory and a proxied factory, each
    a value made of the parameters it is built with, here the keyword
    arguments of [ClientManager(DirectClient, ...)] and of
    [ClientManager(StandardClient, ...)]. *)
Inductive client_mgr : Type :=
| DirectManager (swift_proxy_storage_path : pyval) (attempts : Z)
    (eventlet : bool) (verbose : callback)
| StandardManager (auth_methods auth_url auth_tenant auth_user auth_key : pyval)
    (auth_cache_path : option string) (region snet : pyval) (attempts : Z)
    (eventlet : bool) (verbose : callback).

Record io_mgr : Type := mk_io {
  subprocess_module : option subprocess_mod;
  io_verbose : option callback
}.

(** Modelled from the spec: [swiftly.cli.context.CLIContext] is not in
    src/.  Spec 3 (RunContext) and the table at lines 72-87 list its
    attributes; an attribute is unset ([None]) until assigned. *)
Record context : Type := mk_context {
  verbose : option callback;
  io_manager : io_mgr;
  original_begin : option float;
  original_args : list string;
  original_main_args : list string;
  eventlet : option bool;
  verbosity : option Z;
  client_manager : option client_mgr;
  cdn : pyval;
  concurrency : option Z
}.

(** How a call into a collaborator ends: it returns, it raises an
    [Exception], or it raises something [except Exception] does not
    catch ([SystemExit], [KeyboardInterrupt]). *)
Inductive completion : Type :=
| Done
| Failed (err : exc)
| Escaped (err : exc).

(** A registered [CLICommand] instance (the classes are not in src/):
    its [name], and what calling it with an argument slice does, given
    the context of the CLI it was created for. *)
Record command : Type := mk_command {
  name : string;
  run : list string -> context -> list event * completion
}.

(** ** The dispatcher's control flow: state, early [return], [raise] *)

Record state : Type := mk_state {
  st_context : context;
  st_events : list event
}.

Inductive outcome (A : Type) : Type :=
| Val (a : A)
| Return (code : Z)
| Raise (err : exc).
Arguments Val {A} a.
Arguments Return {A} code.
Arguments Raise {A} err.

Definition M (A : Type) : Type := state -> state * outcome A.

Definition ret {A} (a : A) : M A := fun s => (s, Val a).

Definition bind {A B} (m : M A) (k : A -> M B) : M B :=
  fun s =>
    match m s with
    | (s', Val a) => k a s'
    | (s', Return c) => (s', Return c)
    | (s', Raise e) => (s', Raise e)
    end.

Definition return_ {A} (c : Z) : M A := fun s => (s, Return c).
Definition raise {A} (e : exc) : M A := fun s => (s, Raise e).

Definition emit (evs : list event) : M unit :=
  fun s => (mk_state (st_context s) (st_events s ++ evs), Val tt).

Definition get_context : M context := fun s => (s, Val (st_context s)).

Definition update (f : context -> context) : M unit :=
  fun s => (mk_state (f (st_context s)) (st_events s), Val tt).

Definition lift {A} (r : exc + A) : M A :=
  match r with
  | inl e => raise e
  | inr a => ret a
  end.

Declare Scope py_scope.
Delimit Scope py_scope with py.
Notation "x <- m ;; k" := (bind m (fun x => k))
  (at level 100, m at next level, right associativity) : py_scope.
Notation "m ;;; k" := (bind m (fun _ => k))
  (at level 100, right associativity) : py_scope.

(** Attribute assignments on the context. *)
Definition set_verbose v c :=
  mk_context v (io_manager c) (original_begin c) (original_args c)
    (original_main_args c) (eventlet c) (verbosity c) (client_manager c)
    (cdn c) (concurrency c).
Definition set_io_manager v c :=
  mk_context (verbose c) v (original_begin c) (original_args c)
    (original_main_args c) (eventlet c) (verbosity c) (client_manager c)
    (cdn c) (concurrency c).
Definition set_original_begin v c :=
  mk_context (verbose c) (io_manager c) v (original_args c)
    (original_main_args c) (eventlet c) (verbosity c) (client_manager c)
    (cdn c) (concurrency c).
Definition set_original_args v c :=
  mk_context (verbose c) (io_manager c) (original_begin c) v
    (original_main_args c) (eventlet c) (verbosity c) (client_manager c)
    (cdn c) (concurrency c).
Definition set_original_main_args v c :=
  mk_context (verbose c) (io_manager c) (original_begin c) (original_args c)
    v (eventlet c) (verbosity c) (client_manager c)
    (cdn c) (concurrency c).
Definition set_eventlet v c :=
  mk_context (verbose c) (io_manager c) (original_begin c) (original_args c)
    (original_main_args c) v (verbosity c) (client_manager c)
    (cdn c) (concurrency c).
Definition set_verbosity v c :=
  mk_context (verbose c) (io_manager c) (original_begin c) (original_args c)
    (original_main_args c) (eventlet c) v (client_manager c)
    (cdn c) (concurrency c).
Definition set_client_manager v c :=
  mk_context (verbose c) (io_manager c) (original_begin c) (original_args c)
    (original_main_args c) (eventlet c) (verbosity c) v
    (cdn c) (concurrency c).
Definition set_cdn v c :=
  mk_context (verbose c) (io_manager c) (original_begin c) (original_args c)
    (original_main_args c) (eventlet c) (verbosity c) (client_manager c)
    v (concurrency c).
Definition set_concurrency v c :=
  mk_context (verbose c) (io_manager c) (original_begin c) (original_args c)
    (original_main_args c) (eventlet c) (verbosity c) (client_manager c)
    (cdn c) v.

(** ** The option parser

    [swiftly.cli.optionparser.OptionParser] is a subclass of
    [optparse.OptionParser] of the Python standard library. [CLI] uses
    [add_option] with the actions [store] and [store_true], and
    [parse_args] with interspersed arguments disabled; the definitions
    below follow the library for that much.  The parser's error handler
    does not raise (see the comment at line 250): it records
    [error_encountered], which is what [CLI.__call__] tests. *)

Module OptParse.

Inductive action : Type :=
| store
| store_true.

(** One [add_option] call; [opt_default] is the keyword [default], [None]
    when it is not given. *)
Record opt : Type := Option_ {
  opt_strings : list string;
  dest : string;
  act : action;
  opt_default : option pyval
}.

Definition takes_value (o : opt) : bool :=
  match act o with
  | store => true
  | store_true => false
  end.

(** An option met on the command line, with the value it was given. *)
Record token : Type := Tok {
  tok_opt : opt;
  tok_value : option string
}.

Inductive parse_error : Type :=
| NoSuchOption (s : string)
| AmbiguousOption (s : string)
| RequiresArgument (o : opt)
| TakesNoValue (o : opt).

Definition has_string (s : string) (o : opt) : bool :=
  existsb (String.eqb s) (opt_strings o).

(** [parser._short_opt.get(s)] and the exact entry of [parser._long_opt]. *)
Definition lookup_opt (table : list opt) (s : string) : option opt :=
  find (has_string s) table.

(** The long option strings that begin with [s]. *)
Definition is_long (s : string) : bool := String.prefix "--" s.

Definition long_candidates (table : list opt) (s : string) : list (string * opt) :=
  flat_map
    (fun o =>
       map (fun w => (w, o))
         (filter (fun w => is_long w && String.prefix s w) (opt_strings o)))
    table.

(** [_match_abbrev]: the exact word, or else the only word that begins
    with [s]. *)
Definition match_long_opt (table : list opt) (s : string) : parse_error + opt :=
  match find (fun o => existsb (fun w => is_long w && String.eqb s w) (opt_strings o)) table with
  | Some o => inr o
  | None =>
      match long_candidates table s with
      | [] => inl (NoSuchOption s)
      | [(_, o)] => inr o
      | _ => inl (AmbiguousOption s)
      end
  end.

(** [arg.split("=", 1)] when ["=" in arg]. *)
Fixpoint split_eq (s : string) : option (string * string) :=
  match s with
  | EmptyString => None
  | String c s' =>
      if Ascii.eqb c "=" then Some (EmptyString, s')
      else match split_eq s' with
           | Some (a, b) => Some (String c a, b)
           | None => None
           end
  end.

(** What one argument yields: the tokens it completes, and the option
    that still waits for its value in the next argument, if any. *)
Definition step : Type := (list token * option opt)%type.

(** [_process_long_opt] *)
Definition process_long_opt (table : list opt) (arg : string) : parse_error + step :=
  let '(s, explicit) :=
    match split_eq arg with
    | Some (a, b) => (a, Some b)
    | None => (arg, None)
    end in
  match match_long_opt table s with
  | inl e => inl e
  | inr o =>
      if takes_value o then
        match explicit with
        | Some v => inr ([Tok o (Some v)], None)
        | None => inr ([], Some o)
        end
      else
        match explicit with
        | Some _ => inl (TakesNoValue o)
        | None => inr ([Tok o None], None)
        end
  end.

(** [_process_short_opts], over the characters after the dash. *)
Fixpoint process_short_opts (table : list opt) (chars : string) : parse_error + step :=
  match chars with
  | EmptyString => inr ([], None)
  | String ch rest =>
      let s := String "-" (String ch EmptyString) in
      match lookup_opt table s with
      | None => inl (NoSuchOption s)
      | Some o =>
          if takes_value o then
            match rest with
            | EmptyString => inr ([], Some o)
            | _ => inr ([Tok o (Some rest)], None)
            end
          else
            match process_short_opts table rest with
            | inl e => inl e
            | inr (toks, pending) => inr (Tok o None :: toks, pending)
            end
      end
  end.

Definition classify (table : list opt) (arg : string) : option (parse_error + step) :=
  if String.prefix "--" arg then Some (process_long_opt table arg)
  else match arg with
       | String "-" (String c rest) => Some (process_short_opts table (String c rest))
       | _ => None
       end.

(** [_process_args] with [allow_interspersed_args] off: parsing stops
    at [--] or at the first argument that is not a flag.  Gives the
    tokens met and the arguments left over. *)
Fixpoint process_args (table : list opt) (rargs : list string)
  : parse_error + (list token * list string) :=
  match rargs with
  | [] => inr ([], [])
  | arg :: rest =>
      if String.eqb arg "--" then inr ([], rest)
      else
        match classify table arg with
        | None => inr ([], rargs)
        | Some (inl e) => inl e
        | Some (inr (toks, None)) =>
            match process_args table rest with
            | inl e => inl e
            | inr (toks', args) => inr (toks ++ toks', args)
            end
        | Some (inr (toks, Some o)) =>
            match rest with
            | [] => inl (RequiresArgument o)
            | v :: rest' =>
                match process_args table rest' with
                | inl e => inl e
                | inr (toks', args) => inr (toks ++ Tok o (Some v) :: toks', args)
                end
            end
        end
  end.

(** [parser.defaults], filled by the [add_option] calls in order. *)
Definition add_default (defaults : gmap string pyval) (o : opt) : gmap string pyval :=
  match opt_default o with
  | Some v => <[dest o := v]> defaults
  | None =>
      match defaults !! dest o with
      | Some _ => defaults
      | None => <[dest o := PyNone]> defaults
      end
  end.

Definition defaults (table : list opt) : gmap string pyval :=
  foldl add_default ∅ table.

(** [option.process]: [store] sets the attribute to the value,
    [store_true] sets it to [True]. *)
Definition tok_pyval (t : token) : pyval :=
  match act (tok_opt t), tok_value t with
  | store, Some v => PyStr v
  | store, None => PyNone
  | store_true, _ => PyBool true
  end.

Definition process (values : gmap string pyval) (t : token) : gmap string pyval :=
  <[dest (tok_opt t) := tok_pyval t]> values.

(** [parser.parse_args(args)]: the values start as the defaults and
    each flag met overwrites its destination.  Gives [(options, args)],
    or the error. *)
Definition parse_args (table : list opt) (args : list string)
  : parse_error + (gmap string pyval * list string) :=
  match process_args table args with
  | inl e => inl e
  | inr (toks, rest) => inr (foldl process (defaults table) toks, rest)
  end.

(** [options.<dest>] *)
Definition attr (values : gmap string pyval) (d : string) : pyval :=
  default PyNone (values !! d).

(** The value of the last token for [d], if the flag was passed. *)
Definition flag_value (d : string) (toks : list token) : option pyval :=
  foldl (fun acc t => if String.eqb (dest (tok_opt t)) d then Some (tok_pyval t) else acc)
    None toks.

End OptParse.

Import OptParse.

(** ** What the process finds around it *)

Record world : Type := mk_world {
  environ : gmap string string;       (* os.environ *)
  time_time : float;                  (* time.time() when the call starts *)
  eventlet_version : option string;   (* eventlet.__version__, when importable *)
  green_subprocess : bool;            (* eventlet.green.subprocess importable *)
  tempdir : string;                   (* tempfile.gettempdir() *)
  classes : string -> command         (* the instance each COMMANDS class creates *)
}.

(** [os.environ.get(k, d)] *)
Definition environ_get (env : gmap string string) (k : string) (d : pyval) : pyval :=
  match env !! k with
  | Some s => PyStr s
  | None => d
  end.

(** [os.environ.get(k, 'false').lower() == 'true'] *)
Definition environ_true (env : gmap string string) (k : string) : bool :=
  String.eqb (lower (match env !! k with Some s => s | None => "false" end)) "true".

(** [int(v)] *)
Definition int_ (v : pyval) : exc + Z :=
  match v with
  | PyInt z => inr z
  | PyBool b => inr (if b then 1 else 0)
  | PyStr s =>
      match int_of_str s with
      | Some z => inr z
      | None => inl (ValueError ("invalid literal for int() with base 10: " +:+ repr_str s))
      end
  | PyNone => inl (TypeError "int() argument must be a string or a number, not 'NoneType'")
  end.

(** [os.path.join(a, b)] (posix) *)
Fixpoint ends_with_slash (s : string) : bool :=
  match s with
  | EmptyString => false
  | String c EmptyString => Ascii.eqb c "/"
  | String _ s' => ends_with_slash s'
  end.

Definition path_join (a b : string) : string :=
  if String.prefix "/" b then b
  else if String.eqb a "" || ends_with_slash a then a +:+ b
  else a +:+ "/" +:+ b.

(** ** [CLI.__init__]

    Lines 222-240 compose the help epilogue from the usage texts of the
    commands; it is only shown by [print_help], which is an event here,
    and is left out. *)

Definition COMMANDS : list string :=
  [ "swiftly.cli.auth.CLIAuth";
    "swiftly.cli.decrypt.CLIDecrypt";
    "swiftly.cli.delete.CLIDelete";
    "swiftly.cli.encrypt.CLIEncrypt";
    "swiftly.cli.fordo.CLIForDo";
    "swiftly.cli.get.CLIGet";
    "swiftly.cli.head.CLIHead";
    "swiftly.cli.help.CLIHelp";
    "swiftly.cli.ping.CLIPing";
    "swiftly.cli.post.CLIPost";
    "swiftly.cli.put.CLIPut";
    "swiftly.cli.tempurl.CLITempURL";
    "swiftly.cli.trans.CLITrans" ].

Record CLI : Type := mk_CLI {
  cli_context : context;
  commands : gmap string command;
  option_parser : list opt
}.

(** [self.context = CLIContext(); self.context.verbose = None;
    self.context.io_manager = IOManager()] *)
Definition fresh_context : context :=
  mk_context None (mk_io None None) None [] [] None None None PyNone None.

(** [self.commands[inst.name] = inst] for each entry of [COMMANDS]. *)
Definition register (w : world) : gmap string command :=
  foldl (fun cmds path => let inst := classes w path in <[name inst := inst]> cmds)
    ∅ COMMANDS.

(** Modelled from the spec: the options [OptionParser] registers by
    itself (its source is not in src/): help under [-?] and [--help],
    and, as a version is given, [--version]; [CLI.__call__] reads
    [options.version] and [options.help]. *)
Definition parser_own_options : list opt :=
  [ Option_ ["-?"; "--help"] "help" store_true None;
    Option_ ["--version"] "version" store_true None ].

(** The [add_option] calls of [CLI.__init__], in order, given the
    defaults of [retries] and [concurrency] once converted. *)
Definition option_table (env : gmap string string) (retries concurrency : Z)
    : list opt :=
  [ Option_ ["-h"] "help" store_true None;
    Option_ ["-A"; "--auth-url"] "auth_url" store
      (Some (environ_get env "SWIFTLY_AUTH_URL" (PyStr "")));
    Option_ ["-U"; "--auth-user"] "auth_user" store
      (Some (environ_get env "SWIFTLY_AUTH_USER" (PyStr "")));
    Option_ ["-K"; "--auth-key"] "auth_key" store
      (Some (environ_get env "SWIFTLY_AUTH_KEY" (PyStr "")));
    Option_ ["-T"; "--auth-tenant"] "auth_tenant" store
      (Some (environ_get env "SWIFTLY_AUTH_TENANT" (PyStr "")));
    Option_ ["--auth-methods"] "auth_methods" store
      (Some (environ_get env "SWIFTLY_AUTH_METHODS" (PyStr "")));
    Option_ ["--region"] "region" store
      (Some (environ_get env "SWIFTLY_REGION" (PyStr "")));
    Option_ ["-D"; "--direct"] "direct" store
      (Some (environ_get env "SWIFTLY_DIRECT" (PyStr "")));
    Option_ ["-P"; "--proxy"] "proxy" store
      (Some (environ_get env "SWIFTLY_PROXY" (PyStr "")));
    Option_ ["-S"; "--snet"] "snet" store_true
      (Some (PyBool (environ_true env "SWIFTLY_SNET")));
    Option_ ["-R"; "--retries"] "retries" store
      (Some (PyInt retries));
    Option_ ["-C"; "--cache-auth"] "cache_auth" store_true
      (Some (PyBool (environ_true env "SWIFTLY_CACHE_AUTH")));
    Option_ ["--cdn"] "cdn" store_true None;
    Option_ ["--concurrency"] "concurrency" store
      (Some (PyInt concurrency));
    Option_ ["--eventlet"] "eventlet" store_true None;
    Option_ ["--no-eventlet"] "no_eventlet" store_true None;
    Option_ ["-v"; "--verbose"] "verbose" store_true None ].

(** The defaults of [retries] and [concurrency] are converted with
    [int] while the parser is built: [int(os.environ.get(..., 4))]. *)
Definition main_options (env : gmap string string) : exc + list opt :=
  match int_ (environ_get env "SWIFTLY_RETRIES" (PyInt 4)) with
  | inl e => inl e
  | inr retries =>
      match int_ (environ_get env "SWIFTLY_CONCURRENCY" (PyInt 1)) with
      | inl e => inl e
      | inr concurrency => inr (option_table env retries concurrency)
      end
  end.

Definition CLI_init (w : world) : exc + CLI :=
  match main_options (environ w) with
  | inl e => inl e
  | inr opts => inr (mk_CLI fresh_context (register w) (parser_own_options ++ opts))
  end.

(** ** [CLI.__call__] *)

Local Open Scope py_scope.

(** Lines 266-279: the explicit switches, else what is installed. *)
Definition select_eventlet (w : world) (options : gmap string pyval) : bool :=
  let e := None in
  let e := if truthy (attr options "eventlet") then Some true else e in
  let e := if truthy (attr options "no_eventlet") then Some false else e in
  match e with
  | Some b => b
  | None =>
      match eventlet_version w with
      | Some v => str_ge v "0.11.0"
      | None => false
      end
  end.

(** Lines 281-290. *)
Definition select_subprocess (w : world) (use_eventlet : bool) : subprocess_mod :=
  if use_eventlet && green_subprocess w then GreenSubprocess else Subprocess.

(** Lines 299-317: [options.retries = int(options.retries)], then the
    client manager. *)
Definition build_client_manager (w : world) (options : gmap string pyval)
    (use_eventlet : bool) : exc + client_mgr :=
  match int_ (attr options "retries") with
  | inl e => inl e
  | inr retries =>
      if truthy (attr options "direct") then
        inr (DirectManager (attr options "direct") (retries + 1) use_eventlet
               (Verbose false))
      else
        let auth_cache_path :=
          if truthy (attr options "cache_auth") then
            Some (path_join (tempdir w)
                    (match environ w !! "USER" with Some u => u | None => "user" end
                     +:+ ".swiftly"))
          else None in
        inr (StandardManager (attr options "auth_methods") (attr options "auth_url")
               (attr options "auth_tenant") (attr options "auth_user")
               (attr options "auth_key") auth_cache_path (attr options "region")
               (attr options "snet") (retries + 1) use_eventlet (Verbose false))
  end.

(** Lines 243-320: everything before the command is looked up.  Yields
    the arguments left after the main options. *)
Definition configure (w : world) (cli : CLI) (argv : list string) : M (list string) :=
  update (set_original_begin (Some (time_time w))) ;;;
  update (set_original_args argv) ;;;
  match parse_args (option_parser cli) argv with
  | inl _ => emit [EParserError] ;;; return_ 1
  | inr (options, args) =>
      if truthy (attr options "version") then emit [EPrintVersion] ;;; return_ 1
      else if match args with [] => true | _ => false end
              || truthy (attr options "help")
      then emit [EPrintHelp] ;;; return_ 1
      else
        update (fun c => set_original_main_args
                  (take (length (original_args c) - length args) (original_args c)) c) ;;;
        let use_eventlet := select_eventlet w options in
        update (set_eventlet (Some use_eventlet)) ;;;
        update (fun c => set_io_manager
                  (mk_io (Some (select_subprocess w use_eventlet))
                     (io_verbose (io_manager c))) c) ;;;
        (if truthy (attr options "verbose") then
           update (set_verbosity (Some 1)) ;;;
           update (set_verbose (Some (Verbose false))) ;;;
           update (fun c => set_io_manager
                     (mk_io (subprocess_module (io_manager c)) (Some (Verbose true))) c)
         else ret tt) ;;;
        manager <- lift (build_client_manager w options use_eventlet) ;;
        update (set_client_manager (Some manager)) ;;;
        update (set_cdn (attr options "cdn")) ;;;
        concurrency <- lift (int_ (attr options "concurrency")) ;;
        update (set_concurrency (Some concurrency)) ;;;
        ret args
  end.

(** [getattr(err, 'code', 1)] *)
Definition code_or_1 (err : exc) : Z :=
  match exc_code err with
  | Some c => c
  | None => 1
  end.

(** Lines 333-344: what the handler writes for a caught failure. *)
Definition report (err : exc) : list event :=
  match exc_text err with
  | NoText =>
      [EWrite Stderr (format_exc err); EWrite Stderr newline; EFlush Stderr]
  | TextNone => []
  | Text s =>
      if String.eqb s "" then []
      else [EWrite Stderr "ERROR "; EWrite Stderr s; EWrite Stderr newline; EFlush Stderr]
  end.

(** Lines 323-324: [for] is a reserved word of Python, the command is
    registered as [fordo]. *)
Definition resolve_alias (command : string) : string :=
  if String.eqb command "for" then "fordo" else command.

(** Lines 322-346: alias, lookup, invocation and the handler. *)
Definition dispatch (cli : CLI) (args : list string) : M Z :=
  match args with
  | [] => raise (IndexError "list index out of range")
  | arg0 :: rest =>
      let command := resolve_alias arg0 in
      match commands cli !! command with
      | None =>
          emit [EWrite Stderr ("ERROR unknown command " +:+ repr_str arg0 +:+ newline);
                EFlush Stderr] ;;;
          return_ 1
      | Some inst =>
          c <- get_context ;;
          emit [EInvoke command rest] ;;;
          let '(evs, res) := run inst rest c in
          emit evs ;;;
          match res with
          | Done => ret 0
          | Failed err => emit (report err) ;;; return_ (code_or_1 err)
          | Escaped err => raise err
          end
      end
  end.

Definition call (w : world) (cli : CLI) (argv : list string) : M Z :=
  args <- configure w cli argv ;;
  dispatch cli args.

(** What the caller of [CLI.__call__] observes. *)
Inductive exit : Type :=
| Exit (code : Z)
| Uncaught (err : exc).

Record result : Type := mk_result {
  res_context : context;
  res_events : list event;
  res_exit : exit
}.

Definition run_call (w : world) (cli : CLI) (argv : list string) : result :=
  match call w cli argv (mk_state (cli_context cli) []) with
  | (s, Val c) => mk_result (st_context s) (st_events s) (Exit c)
  | (s, Return c) => mk_result (st_context s) (st_events s) (Exit c)
  | (s, Raise e) => mk_result (st_context s) (st_events s) (Uncaught e)
  end.

(** [CLI()(argv)], as the [swiftly] script runs it. *)
Definition main (w : world) (argv : list string) : exc + result :=
  match CLI_init w with
  | inl e => inl e
  | inr cli => inr (run_call w cli argv)
  end.

(** ** [CLI._verbose] *)

(** How [msg % args] ends: the formatted text, a [TypeError] (with its
    message), or another error, which [_verbose] does not handle. *)
Inductive formatted : Type :=
| Formatted (s : string)
| FormatTypeError (err : string)
| FormatError (err : exc).

Section Verbose.

(** The [%] operator of byte strings. *)
Variable format : string -> list pyval -> formatted.

Definition verbosity_on (c : context) : bool :=
  match verbosity c with
  | Some v => negb (v =? 0)
  | None => false
  end.

(** [self._verbose(msg, *args, **kwargs)] called at time [now]. *)
Definition _verbose (c : context) (now : float) (msg : string)
    (args : list pyval) (kwargs : gmap string pyval) : list event * completion :=
  if verbosity_on c then
    let skip_sub_command := default (PyBool false) (kwargs !! "skip_sub_command") in
    let fp := Debug (truthy skip_sub_command) in
    let describe err := err +:+ ": " +:+ repr_str msg +:+ " " +:+ repr_tuple args in
    match original_begin c with
    | None =>
        ([], Failed (TypeError (describe
               "unsupported operand type(s) for -: 'float' and 'NoneType'")))
    | Some begin =>
        let stamp := EWrite fp ("VERBOSE " +:+ format_02f (now - begin) +:+ " ") in
        match format msg args with
        | Formatted s => ([stamp; EWrite fp s; EWrite fp newline; EFlush fp], Done)
        | FormatTypeError err => ([stamp], Failed (TypeError (describe err)))
        | FormatError err => ([stamp], Failed err)
        end
    end
  else ([], Done).

(** Calling what the context holds as [verbose], or the io manager as
    its [verbose]: the partial application adds its keyword. *)
Definition call_back (cb : callback) (c : context) (now : float) (msg : string)
    (args : list pyval) : list event * completion :=
  match cb with
  | Verbose false => _verbose c now msg args ∅
  | Verbose true => _verbose c now msg args {[ "skip_sub_command" := PyBool true ]}
  end.

(** A diagnostic call: when it happens and what it is given. *)
Record diag : Type := mk_diag {
  diag_now : float;
  diag_msg : string;
  diag_args : list pyval;
  diag_kwargs : gmap string pyval
}.

(** Diagnostic calls made one after the other, up to the first that
    raises. *)
Fixpoint verbose_calls (c : context) (calls : list diag) : list event * completion :=
  match calls with
  | [] => ([], Done)
  | d :: rest =>
      match _verbose c (diag_now d) (diag_msg d) (diag_args d) (diag_kwargs d) with
      | (evs, Done) =>
          let '(evs', res) := verbose_calls c rest in (evs ++ evs', res)
      | r => r
      end
  end.

End Verbose.

(** The text a list of events puts on a stream. *)
Fixpoint written (fp : stream) (evs : list event) : string :=
  match evs with
  | [] => ""
  | EWrite fp' s :: evs' =>
      match fp, fp' with
      | Stderr, Stderr => s +:+ written fp evs'
      | Debug a, Debug b => if Bool.eqb a b then s +:+ written fp evs' else written fp evs'
      | _, _ => written fp evs'
      end
  | _ :: evs' => written fp evs'
  end.

(** The commands that a list of events shows as invoked. *)
Definition invoked (evs : list event) : list (string * list string) :=
  flat_map (fun e => match e with EInvoke n a => [(n, a)] | _ => [] end) evs.

Fixpoint count_char (c : ascii) (s : string) : nat :=
  match s with
  | EmptyString => 0%nat
  | String d s' => ((if Ascii.eqb c d then 1 else 0) + count_char c s')%nat
  end.

(** Number of line ends in a text. *)
Definition line_ends (s : string) : nat := count_char (ascii_of_nat 10) s.

(** ** A sample installation, for running the model *)

(** [ReturnCode(text, code)] of [swiftly.cli.command]. *)
Definition ReturnCode (text : text_attr) (code : Z) : exc :=
  mk_exc "ReturnCode" (match text with Text s => s | _ => "None" end) text (Some code)
    ("  File swiftly/cli/get.py, line 1, in cli_get" +:+ newline).

Definition sample_names : list (string * string) :=
  [ ("swiftly.cli.auth.CLIAuth", "auth");
    ("swiftly.cli.decrypt.CLIDecrypt", "decrypt");
    ("swiftly.cli.delete.CLIDelete", "delete");
    ("swiftly.cli.encrypt.CLIEncrypt", "encrypt");
    ("swiftly.cli.fordo.CLIForDo", "fordo");
    ("swiftly.cli.get.CLIGet", "get");
    ("swiftly.cli.head.CLIHead", "head");
    ("swiftly.cli.help.CLIHelp", "help");
    ("swiftly.cli.ping.CLIPing", "ping");
    ("swiftly.cli.post.CLIPost", "post");
    ("swiftly.cli.put.CLIPut", "put");
    ("swiftly.cli.tempurl.CLITempURL", "tempurl");
    ("swiftly.cli.trans.CLITrans", "trans") ].

(** Stand-ins for the command classes: [get] signals a failure with a
    message and a code, [delete] one with an empty message, [head] raises
    a [KeyError], [post] raises an error that has a [code] but no [text]
    (as [urllib2.HTTPError] does), the others print their arguments. *)
Definition sample_run (n : string) (args : list string) (c : context)
    : list event * completion :=
  if String.eqb n "get" then ([], Failed (ReturnCode (Text "no such container") 4))
  else if String.eqb n "delete" then ([], Failed (ReturnCode (Text "") 3))
  else if String.eqb n "head" then
    ([], Failed (mk_exc "KeyError" "'x-timestamp'" NoText None
                   ("  File swiftly/cli/head.py, line 1, in cli_head" +:+ newline)))
  else if String.eqb n "post" then
    ([], Failed (mk_exc "HTTPError" "HTTP Error 404: Not Found" NoText (Some 404)
                   ("  File swiftly/cli/post.py, line 1, in cli_post" +:+ newline)))
  else ([EOutput (join " " (n :: args))], Done).

Definition sample_classes (path : string) : command :=
  let n := match find (fun p => String.eqb (fst p) path) sample_names with
           | Some p => snd p
           | None => path
           end in
  mk_command n (sample_run n).

Definition sample_world (env : gmap string string) : world :=
  mk_world env 1700000000%float (Some "0.9.16") true "/tmp" sample_classes.

(** A formatter for the conversions [%s], [%r], [%d] and [%%], enough to
    run [_verbose] on the messages of the examples. *)
Definition str (v : pyval) : string :=
  match v with
  | PyStr s => s
  | _ => repr v
  end.

Definition prepend (p : string) (r : formatted) : formatted :=
  match r with
  | Formatted s => Formatted (p +:+ s)
  | other => other
  end.

Fixpoint sample_format (msg : string) (args : list pyval) : formatted :=
  match msg with
  | EmptyString =>
      match args with
      | [] => Formatted EmptyString
      | _ => FormatTypeError "not all arguments converted during string formatting"
      end
  | String "%" EmptyString => FormatError (ValueError "incomplete format")
  | String "%" (String c rest) =>
      if Ascii.eqb c "%" then prepend "%" (sample_format rest args)
      else
        match args with
        | [] => FormatTypeError "not enough arguments for format string"
        | a :: args' =>
            if Ascii.eqb c "s" then prepend (str a) (sample_format rest args')
            else if Ascii.eqb c "r" then prepend (repr a) (sample_format rest args')
            else if Ascii.eqb c "d" then
              match a with
              | PyInt _ | PyBool _ =>
                  match int_ a with
                  | inr z => prepend (str_of_Z z) (sample_format rest args')
                  | inl e => FormatError e
                  end
              | _ => FormatTypeError "%d format: a number is required"
              end
            else FormatError (ValueError "unsupported format character")
        end
  | String c rest => prepend (String c EmptyString) (sample_format rest args)
  end.

(** The shape [-?digits.dd] of a two-decimal fixed-point number. *)
Fixpoint digits_dot_2 (s : string) (seen : bool) : bool :=
  match s with
  | EmptyString => false
  | String c s' =>
      if is_digit c then digits_dot_2 s' true
      else Ascii.eqb c "." && seen &&
           match s' with
           | String a (String b EmptyString) => is_digit a && is_digit b
           | _ => false
           end
  end.

Definition is_fixed2 (s : string) : bool :=
  match s with
  | String "-" s' => digits_dot_2 s' false
  | _ => digits_dot_2 s false
  end.

(** ** Notions used in the statements *)

(** The CLI object of a world whose environment lets it be built. *)
Definition cli_of (w : world) : CLI :=
  match CLI_init w with
  | inr cli => cli
  | inl _ => mk_CLI fresh_context ∅ []
  end.

(** Decimal digits only. *)
Fixpoint all_digits (s : string) : bool :=
  match s with
  | EmptyString => true
  | String c s' => is_digit c && all_digits s'
  end.

(** A context as [CLI.__call__] leaves it with [-v], and one without. *)
Definition context_on : context :=
  mk_context (Some (Verbose false)) (mk_io (Some Subprocess) (Some (Verbose true)))
    (Some 1700000000%float) ["-v"; "get"] ["-v"] (Some false) (Some 1) None PyNone
    (Some 1).

Definition context_off : context :=
  mk_context None (mk_io (Some Subprocess) None)
    (Some 1700000000%float) ["get"] [] (Some false) None None PyNone (Some 1).

(** The environment lets the parser be built: [SWIFTLY_RETRIES] and
    [SWIFTLY_CONCURRENCY], when set, hold integer literals. *)
Definition env_integer_ok (env : gmap string string) (var : string) : bool :=
  match env !! var with
  | Some s => match int_of_str s with Some _ => true | None => false end
  | None => true
  end.

Definition env_integers_ok (env : gmap string string) : bool :=
  env_integer_ok env "SWIFTLY_RETRIES" && env_integer_ok env "SWIFTLY_CONCURRENCY".

(** *** Precedence, as documented

    The options of the command line with their type, the environment
    variable the help text names for them, and their default. *)

Inductive kind : Type :=
| KString
| KInteger
| KBoolean.

Record documented : Type := Doc {
  doc_dest : string;
  doc_kind : kind;
  doc_env : option string;
  doc_default : pyval
}.

Definition documented_options : list documented :=
  [ Doc "help" KBoolean None (PyBool false);
    Doc "auth_url" KString (Some "SWIFTLY_AUTH_URL") (PyStr "");
    Doc "auth_user" KString (Some "SWIFTLY_AUTH_USER") (PyStr "");
    Doc "auth_key" KString (Some "SWIFTLY_AUTH_KEY") (PyStr "");
    Doc "auth_tenant" KString (Some "SWIFTLY_AUTH_TENANT") (PyStr "");
    Doc "auth_methods" KString (Some "SWIFTLY_AUTH_METHODS") (PyStr "");
    Doc "region" KString (Some "SWIFTLY_REGION") (PyStr "");
    Doc "direct" KString (Some "SWIFTLY_DIRECT") (PyStr "");
    Doc "proxy" KString (Some "SWIFTLY_PROXY") (PyStr "");
    Doc "snet" KBoolean (Some "SWIFTLY_SNET") (PyBool false);
    Doc "retries" KInteger (Some "SWIFTLY_RETRIES") (PyInt 4);
    Doc "cache_auth" KBoolean (Some "SWIFTLY_CACHE_AUTH") (PyBool false);
    Doc "cdn" KBoolean None (PyBool false);
    Doc "concurrency" KInteger (Some "SWIFTLY_CONCURRENCY") (PyInt 1);
    Doc "eventlet" KBoolean None (PyBool false);
    Doc "no_eventlet" KBoolean None (PyBool false);
    Doc "verbose" KBoolean None (PyBool false) ].

(** The value an environment variable stands for. *)
Definition from_env (k : kind) (s : string) : pyval :=
  match k with
  | KString => PyStr s
  | KInteger => PyStr s
  | KBoolean => PyBool (String.eqb (lower s) "true")
  end.

(** The rule as the spec words it (3, 4.1, 8): the value of the flag
    when the flag was passed, else the value of the environment variable
    when it is set, else the default. *)
Definition by_precedence (o : documented) (toks : list token)
    (env : gmap string string) : pyval :=
  match flag_value (doc_dest o) toks with
  | Some v => v
  | None =>
      match doc_env o with
      | Some var =>
          match env !! var with
          | Some s => from_env (doc_kind o) s
          | None => doc_default o
          end
      | None => doc_default o
      end
  end.

(** How [CLI.__call__] reads an option: a string as it is, a boolean by
    its truth value, an integer through [int]. *)
Definition read (k : kind) (v : pyval) : exc + pyval :=
  match k with
  | KString => inr v
  | KBoolean => inr (PyBool (truthy v))
  | KInteger =>
      match int_ v with
      | inl e => inl e
      | inr z => inr (PyInt z)
      end
  end.

(** The retries an invocation resolves to. *)
Definition resolved_retries (w : world) (argv : list string) : option (exc + Z) :=
  match CLI_init w with
  | inl e => Some (inl e)
  | inr cli =>
      match parse_args (option_parser cli) argv with
      | inl _ => None
      | inr (options, _) => Some (int_ (attr options "retries"))
      end
  end.

(** The destinations of [--auth-url], [--auth-user], [--auth-key] and
    [--auth-tenant]. *)
Definition auth_dests : list string :=
  ["auth_url"; "auth_user"; "auth_key"; "auth_tenant"].

Definition is_direct (m : client_mgr) : bool :=
  match m with
  | DirectManager _ _ _ _ => true
  | StandardManager _ _ _ _ _ _ _ _ _ _ _ => false
  end.

(** Two option sets that differ at most in the four auth values. *)
Definition same_but_auth (options options' : gmap string pyval) : Prop :=
  forall d, d ∉ auth_dests -> options !! d = options' !! d.

(** The options an invocation resolves to. *)
Definition options_of (cli : CLI) (argv : list string) : gmap string pyval :=
  match parse_args (option_parser cli) argv with
  | inr (options, _) => options
  | inl _ => ∅
  end.

(** The options without the four auth values. *)
Definition strip_auth (options : gmap string pyval) : gmap string pyval :=
  foldr delete options auth_dests.

(** Lines 263-297: the attributes set between parsing and the client
    manager. *)
Definition prepared (w : world) (options : gmap string pyval) (args : list string)
    (c : context) : context :=
  let c := set_original_main_args
             (take (length (original_args c) - length args) (original_args c)) c in
  let use_eventlet := select_eventlet w options in
  let c := set_eventlet (Some use_eventlet) c in
  let c := set_io_manager (mk_io (Some (select_subprocess w use_eventlet))
                             (io_verbose (io_manager c))) c in
  if truthy (attr options "verbose") then
    set_io_manager (mk_io (subprocess_module (io_manager c)) (Some (Verbose true)))
      (set_verbose (Some (Verbose false)) (set_verbosity (Some 1) c))
  else c.

(** How an invocation ends once the command is found, from what the
    command does. *)
Definition finish (c : context) (command : string) (rest : list string)
    (r : list event * completion) : result :=
  match r with
  | (evs, Done) => mk_result c (EInvoke command rest :: evs) (Exit 0)
  | (evs, Failed err) =>
      mk_result c (EInvoke command rest :: evs ++ report err) (Exit (code_or_1 err))
  | (evs, Escaped err) => mk_result c (EInvoke command rest :: evs) (Uncaught err)
  end.

(** What is seen of a run. *)
Definition observed (r : exc + result) : exc + (list event * exit) :=
  match r with
  | inl e => inl e
  | inr r => inr (res_events r, res_exit r)
  end.

(** ** The help epilogue (lines 222-240 of [CLI.__init__]) *)

(** [s.split(sep)] for a separator of one character: never empty. *)
Fixpoint split_char (sep : ascii) (s : string) : list string :=
  match s with
  | EmptyString => [EmptyString]
  | String c s' =>
      if Ascii.eqb c sep then EmptyString :: split_char sep s'
      else
        match split_char sep s' with
        | x :: xs => String c x :: xs
        | [] => [String c EmptyString]
        end
  end.

(** [s.split(sep, 1)] when [sep] occurs in [s]: what is before the
    first occurrence, and what is after. *)
Fixpoint split_once (sep : ascii) (s : string) : option (string * string) :=
  match s with
  | EmptyString => None
  | String c s' =>
      if Ascii.eqb c sep then Some (EmptyString, s')
      else
        match split_once sep s' with
        | Some (a, b) => Some (String c a, b)
        | None => None
        end
  end.

(** [s.rstrip()] and [s.strip()] *)
Fixpoint rstrip (s : string) : string :=
  match s with
  | EmptyString => EmptyString
  | String c s' =>
      match rstrip s' with
      | EmptyString => if is_space c then EmptyString else String c EmptyString
      | r => String c r
      end
  end.

Definition strip (s : string) : string := rstrip (lstrip s).

(** [' ' * n] *)
Fixpoint spaces (n : nat) : string :=
  match n with
  | O => EmptyString
  | S n' => String " " (spaces n')
  end.

(** Lines 229-232: the lines up to the first empty one. *)
Fixpoint until_blank (lines : list string) : list string :=
  match lines with
  | [] => []
  | line :: rest =>
      if String.eqb line "" then [] else line :: until_blank rest
  end.

(** [sorted(names)] on byte strings. *)
Definition str_le (a b : string) : bool := str_ge b a.

Fixpoint insert_sorted (x : string) (l : list string) : list string :=
  match l with
  | [] => [x]
  | y :: l' => if str_le x y then x :: y :: l' else y :: insert_sorted x l'
  end.

Definition sorted (l : list string) : list string := foldr insert_sorted [] l.

Definition KeyError (msg : string) : exc := mk_exc "KeyError" msg NoText None "".

Section Epilog.

(** [command.option_parser.get_usage()]: the command classes are not in
    src/. *)
Variable get_usage : command -> string.

(** [textwrap.fill(text, width=..., initial_indent=...,
    subsequent_indent=...)] of the standard library. *)
Variable fill : string -> nat -> string -> string -> string.

(** Line 226: ['  ' + lines[0].split(']', 1)[1].strip()]. *)
Definition main_line (first : string) : exc + string :=
  match split_once "]" first with
  | Some (_, after) => inr ("  " +:+ strip after)
  | None => inl (IndexError "list index out of range")
  end.

(** Lines 225-240, the body of the loop: what one command adds to the
    epilogue. *)
Definition epilog_entry (usage : string) : exc + string :=
  let lines := split_char (ascii_of_nat 10) usage in
  match lines with
  | [] => inl (IndexError "list index out of range")
  | first :: _ =>
      match main_line first with
      | inl e => inl e
      | inr main =>
          if (length lines <? 4)%nat then inl (IndexError "pop from empty list")
          else
            let body := until_blank (drop 4 lines) in
            let width := String.length main in
            let alone := if (width <? 24)%nat then EmptyString else main +:+ newline in
            let initial_indent :=
              if (width <? 24)%nat then main +:+ spaces (24 - width) else spaces 24 in
            inr (alone +:+
                 fill (join " " body) 79%nat initial_indent (spaces 24) +:+ newline)
      end
  end.

(** The loop of line 223 over the names still to do. *)
Fixpoint compose_epilog (cmds : gmap string command) (names : list string)
    (epilog : string) : exc + string :=
  match names with
  | [] => inr epilog
  | n :: rest =>
      match cmds !! n with
      | None => inl (KeyError (repr_str n))
      | Some inst =>
          match epilog_entry (get_usage inst) with
          | inl e => inl e
          | inr text => compose_epilog cmds rest (epilog +:+ text)
          end
      end
  end.

(** Lines 222-240: [self.option_parser.raw_epilog]. *)
Definition raw_epilog (cmds : gmap string command) : exc + string :=
  compose_epilog cmds (sorted (map fst (map_to_list cmds))) ("Commands:" +:+ newline).

(** [CLI()]: the registry, the parser, then the epilogue. *)
Definition CLI_new (w : world) : exc + (CLI * string) :=
  match CLI_init w with
  | inl e => inl e
  | inr cli =>
      match raw_epilog (commands cli) with
      | inl e => inl e
      | inr epilog => inr (cli, epilog)
      end
  end.

End Epilog.

(** Stand-ins for running the epilogue: every command of the sample
    installation has the same shape of usage text, and the filler puts
    the text after the indent without wrapping. *)
Definition sample_usage (inst : command) : string :=
  join newline
    [ "Usage: swiftly [main_options] " +:+ name inst +:+ " [options] <path>";
      "";
      "Options:";
      "  -?, --help  Shows this help text.";
      "Does " +:+ name inst +:+ ".";
      "For help on " +:+ name inst +:+ " see the manual.";
      "";
      "  --raw  Not part of the summary." ].

Definition sample_fill (text : string) (width : nat) (initial_indent : string)
    (subsequent_indent : string) : string :=
  initial_indent +:+ text.

(** One turn of the loop of lines 95-99. *)
Definition register_step (w : world) (cmds : gmap string command) (path : string)
  : gmap string command :=
  let inst := classes w path in <[name inst := inst]> cmds.

(** A token as the parser makes them: its option is one of the table,
    and it carries a value when the option takes one. *)
Definition tok_ok (table : list opt) (t : token) : Prop :=
  In (tok_opt t) table
  /\ (takes_value (tok_opt t) = true -> exists v, tok_value t = Some v).

(** ** Calls in sequence on one [CLI] object *)

(** The object after a call: [self.context] keeps what the call
    assigned. *)
Definition after_call (cli : CLI) (r : result) : CLI :=
  mk_CLI (res_context r) (commands cli) (option_parser cli).

(** The [attempts] a client manager was built with. *)
Definition attempts_of (m : client_mgr) : Z :=
  match m with
  | DirectManager _ a _ _ => a
  | StandardManager _ _ _ _ _ _ _ _ a _ _ => a
  end.

(** The [auth_cache_path] a client manager was built with, if it takes
    one. *)
Definition auth_cache_path_of (m : client_mgr) : option string :=
  match m with
  | DirectManager _ _ _ _ => None
  | StandardManager _ _ _ _ _ p _ _ _ _ _ => p
  end.

(** The [eventlet] keyword a client manager was built with. *)
Definition eventlet_of (m : client_mgr) : bool :=
  match m with
  | DirectManager _ _ e _ => e
  | StandardManager _ _ _ _ _ _ _ _ _ e _ => e
  end.

(** The destinations of the options that take a string value kept as
    it is. *)
Definition string_dests : list string :=
  ["auth_url"; "auth_user"; "auth_key"; "auth_tenant"; "auth_methods"; "region";
   "direct"; "proxy"].

(** All destinations of the parser. *)
Definition all_dests : list string :=
  ["help"; "version"; "auth_url"; "auth_user"; "auth_key"; "auth_tenant";
   "auth_methods"; "region"; "direct"; "proxy"; "snet"; "retries"; "cache_auth";
   "cdn"; "concurrency"; "eventlet"; "no_eventlet"; "verbose"].

(** ** What a run shows, counted *)

(** The flushes among a list of events. *)
Fixpoint flushes (evs : list event) : nat :=
  match evs with
  | [] => 0%nat
  | EFlush _ :: evs' => S (flushes evs')
  | _ :: evs' => flushes evs'
  end.

(** An event of a debug stream. *)
Definition on_debug (e : event) : bool :=
  match e with
  | EWrite (Debug _) _ | EFlush (Debug _) => true
  | _ => false
  end.

(** The first line of a text. *)
Definition first_line (text : string) : string :=
  hd EmptyString (split_char (ascii_of_nat 10) text).

(** Each name is at most the next one. *)
Fixpoint ascending (l : list string) : bool :=
  match l with
  | x :: (y :: _) as l' => str_le x y && ascending l'
  | _ => true
  end.

(** * Properties *)

(** ** Texts *)

Lemma count_char_app c a b :
  count_char c (a +:+ b) = (count_char c a + count_char c b)%nat.
Proof.
  induction a as [|d a IH]; simpl; [reflexivity|].
  rewrite IH. lia.
Qed.

Lemma quote_for_cases s : quote_for s = "'"%char \/ quote_for s = dquote.
Proof. unfold quote_for. destruct (_ && _); auto. Qed.

Lemma repr_char_one_line q c :
  q = "'"%char \/ q = dquote -> line_ends (repr_char q c) = 0%nat.
Proof.
  intros [-> | ->]; destruct c as [[] [] [] [] [] [] [] []]; reflexivity.
Qed.

Lemma repr_body_one_line q s :
  q = "'"%char \/ q = dquote -> line_ends (repr_body q s) = 0%nat.
Proof.
  intros Hq. induction s as [|c s IH]; simpl; [reflexivity|].
  unfold line_ends in *. rewrite count_char_app, IH.
  apply (repr_char_one_line q c) in Hq. unfold line_ends in Hq. lia.
Qed.

(** [repr] escapes line ends: the result stays on one line. *)
Lemma repr_str_one_line s : line_ends (repr_str s) = 0%nat.
Proof.
  unfold repr_str, line_ends.
  pose proof (quote_for_cases s) as Hq.
  pose proof (repr_body_one_line (quote_for s) s Hq) as Hb.
  unfold line_ends in Hb.
  cbn [count_char]. rewrite count_char_app, Hb.
  destruct Hq as [-> | ->]; reflexivity.
Qed.

Lemma format_exc_nonempty err : format_exc err <> EmptyString.
Proof. unfold format_exc. discriminate. Qed.

(** ** The dispatcher *)

Ltac unfold_monad :=
  unfold bind, update, emit, return_, ret, lift, raise, get_context in *;
  cbn [st_context st_events fst snd] in *.

(** Reaching the lookup of the command writes nothing. *)
Lemma configure_val_events w cli argv s s' args :
  configure w cli argv s = (s', Val args) -> st_events s' = st_events s.
Proof.
  unfold configure. unfold_monad.
  destruct (parse_args (option_parser cli) argv) as [e|[options args']];
    [discriminate|].
  destruct (truthy (attr options "version")); [discriminate|].
  destruct (_ || _); [discriminate|].
  destruct (truthy (attr options "verbose")); cbn [st_context st_events];
    (destruct (build_client_manager _ _ _) as [e|m]; [discriminate|]);
    cbn [st_context st_events];
    (destruct (int_ (attr options "concurrency")) as [e|k]; [discriminate|]);
    intros H; injection H as <- _; reflexivity.
Qed.

(** What [run_call] gives once [configure] has yielded the arguments. *)
Lemma run_call_dispatch w cli argv s1 args :
  configure w cli argv (mk_state (cli_context cli) []) = (s1, Val args) ->
  run_call w cli argv =
    match dispatch cli args (mk_state (st_context s1) []) with
    | (s, Val c) => mk_result (st_context s) (st_events s) (Exit c)
    | (s, Return c) => mk_result (st_context s) (st_events s) (Exit c)
    | (s, Raise e) => mk_result (st_context s) (st_events s) (Uncaught e)
    end.
Proof.
  intros H. pose proof (configure_val_events _ _ _ _ _ _ H) as Hev.
  unfold run_call, call, bind. rewrite H.
  destruct s1 as [c evs]. cbn in Hev. subst evs. reflexivity.
Qed.

(** How an invocation ends when the command is found and raises an
    [Exception]: the handler's output follows the command's own, and the
    exit code is the failure's [code], or 1. *)
Lemma run_call_failed w cli argv s1 tok rest inst evs err :
  configure w cli argv (mk_state (cli_context cli) []) = (s1, Val (tok :: rest)) ->
  commands cli !! resolve_alias tok = Some inst ->
  run inst rest (st_context s1) = (evs, Failed err) ->
  run_call w cli argv =
    mk_result (st_context s1)
      (EInvoke (resolve_alias tok) rest :: evs ++ report err)
      (Exit (code_or_1 err)).
Proof.
  intros Hconf Hcmd Hrun.
  rewrite (run_call_dispatch _ _ _ _ _ Hconf).
  unfold dispatch. rewrite Hcmd. unfold_monad. rewrite Hrun.
  cbn. reflexivity.
Qed.

(** C2. When the invoked command raises a failure whose [text] is a
    non-empty message, the dispatcher (after whatever the command itself
    did) writes [ERROR ], the message and a line end to the error
    stream, flushes it, and returns the failure's [code] if it has one,
    else 1. *)
Theorem signaled_failure_reported w cli argv s1 tok rest inst evs err msg :
  configure w cli argv (mk_state (cli_context cli) []) = (s1, Val (tok :: rest)) ->
  commands cli !! resolve_alias tok = Some inst ->
  run inst rest (st_context s1) = (evs, Failed err) ->
  exc_text err = Text msg ->
  msg <> EmptyString ->
  let r := run_call w cli argv in
  res_events r =
    EInvoke (resolve_alias tok) rest :: evs ++
    [EWrite Stderr "ERROR "; EWrite Stderr msg; EWrite Stderr newline; EFlush Stderr]
  /\ written Stderr (report err) = "ERROR " +:+ msg +:+ newline
  /\ res_exit r = Exit (match exc_code err with Some c => c | None => 1 end).
Proof.
  intros Hconf Hcmd Hrun Htext Hmsg r. subst r.
  rewrite (run_call_failed _ _ _ _ _ _ _ _ _ Hconf Hcmd Hrun).
  unfold report. rewrite Htext.
  destruct (String.eqb msg "") eqn:E; [apply String.eqb_eq in E; contradiction|].
  cbn. repeat split.
Qed.

Lemma signaled_failure_reported_witness :
  let w := sample_world ∅ in
  let r := run_call w (cli_of w) ["get"; "c"] in
  res_events r =
    [EInvoke "get" ["c"]; EWrite Stderr "ERROR "; EWrite Stderr "no such container";
     EWrite Stderr newline; EFlush Stderr]
  /\ res_exit r = Exit 4.
Proof.
  intros w r.
  pose proof (signaled_failure_reported w (cli_of w) ["get"; "c"]
    (fst (configure w (cli_of w) ["get"; "c"] (mk_state (cli_context (cli_of w)) [])))
    "get" ["c"] (classes w "swiftly.cli.get.CLIGet") []
    (ReturnCode (Text "no such container") 4) "no such container") as H.
  destruct H as (Hev & _ & Hexit);
    [vm_compute; reflexivity | vm_compute; reflexivity | reflexivity
    | reflexivity | discriminate |].
  split; [exact Hev | exact Hexit].
Defined.

(** C3, amended. When the invoked command raises a failure
    that has no [text] attribute, the dispatcher writes the full trace of
    the failure (never empty) and a line end to the error stream and
    flushes it; the exit code is the failure's [code] attribute when it
    has one, and 1 when it has none. *)
Theorem unsignaled_failure_traced w cli argv s1 tok rest inst evs err :
  configure w cli argv (mk_state (cli_context cli) []) = (s1, Val (tok :: rest)) ->
  commands cli !! resolve_alias tok = Some inst ->
  run inst rest (st_context s1) = (evs, Failed err) ->
  exc_text err = NoText ->
  let r := run_call w cli argv in
  res_events r =
    EInvoke (resolve_alias tok) rest :: evs ++
    [EWrite Stderr (format_exc err); EWrite Stderr newline; EFlush Stderr]
  /\ format_exc err <> EmptyString
  /\ res_exit r = Exit (match exc_code err with Some c => c | None => 1 end)
  /\ (exc_code err = None -> res_exit r = Exit 1).
Proof.
  intros Hconf Hcmd Hrun Htext r. subst r.
  rewrite (run_call_failed _ _ _ _ _ _ _ _ _ Hconf Hcmd Hrun).
  unfold report, code_or_1. rewrite Htext. cbn.
  repeat split; [apply format_exc_nonempty|].
  intros ->. reflexivity.
Qed.

Lemma unsignaled_failure_traced_witness :
  let w := sample_world ∅ in
  let r := run_call w (cli_of w) ["head"; "c"] in
  res_events r =
    [EInvoke "head" ["c"];
     EWrite Stderr
       ("Traceback (most recent call last):" +:+ newline +:+
        "  File swiftly/cli/head.py, line 1, in cli_head" +:+ newline +:+
        "KeyError: 'x-timestamp'" +:+ newline);
     EWrite Stderr newline; EFlush Stderr]
  /\ res_exit r = Exit 1.
Proof.
  intros w r.
  pose proof (unsignaled_failure_traced w (cli_of w) ["head"; "c"]
    (fst (configure w (cli_of w) ["head"; "c"] (mk_state (cli_context (cli_of w)) [])))
    "head" ["c"] (classes w "swiftly.cli.head.CLIHead") []
    (mk_exc "KeyError" "'x-timestamp'" NoText None
       ("  File swiftly/cli/head.py, line 1, in cli_head" +:+ newline))) as H.
  destruct H as (Hev & _ & _ & Hexit);
    [vm_compute; reflexivity | vm_compute; reflexivity | reflexivity | reflexivity |].
  split; [exact Hev | apply Hexit; reflexivity].
Defined.

(** C3, counterexample: [post] of the sample installation raises an
    error with no [text] but with [code = 404]; the trace is written and
    the exit code is 404, not 1. *)
Lemma unsignaled_failure_exit_counterexample :
  let w := sample_world ∅ in
  let r := run_call w (cli_of w) ["post"; "c"] in
  exists err,
    run (classes w "swiftly.cli.post.CLIPost") ["c"] (res_context r) = ([], Failed err)
    /\ exc_text err = NoText
    /\ res_events r =
         [EInvoke "post" ["c"]; EWrite Stderr (format_exc err);
          EWrite Stderr newline; EFlush Stderr]
    /\ res_exit r = Exit 404
    /\ res_exit r <> Exit 1.
Proof.
  intros w r. eexists. split; [reflexivity|].
  split; [reflexivity|]. split; [vm_compute; reflexivity|].
  split; [vm_compute; reflexivity|]. vm_compute. discriminate.
Qed.

(** C4. When the command token is not [for] and names no registered
    command, the invocation writes one text to the error stream,
    [ERROR unknown command ] followed by the [repr] of the token and a
    line end (a single line, as [repr] escapes line ends), flushes,
    invokes nothing and returns 1. *)
Theorem unknown_command_reported w cli argv s1 tok rest :
  configure w cli argv (mk_state (cli_context cli) []) = (s1, Val (tok :: rest)) ->
  tok <> "for" ->
  commands cli !! tok = None ->
  let r := run_call w cli argv in
  res_events r =
    [EWrite Stderr ("ERROR unknown command " +:+ repr_str tok +:+ newline);
     EFlush Stderr]
  /\ line_ends (written Stderr (res_events r)) = 1%nat
  /\ invoked (res_events r) = []
  /\ res_exit r = Exit 1.
Proof.
  intros Hconf Hfor Hcmd r. subst r.
  rewrite (run_call_dispatch _ _ _ _ _ Hconf).
  unfold dispatch, resolve_alias.
  destruct (String.eqb tok "for") eqn:E; [apply String.eqb_eq in E; contradiction|].
  rewrite Hcmd. unfold_monad. cbn.
  repeat split.
  unfold line_ends. rewrite !count_char_app.
  pose proof (repr_str_one_line tok) as Hr. unfold line_ends in Hr. rewrite Hr.
  reflexivity.
Qed.

Lemma unknown_command_reported_witness :
  let w := sample_world ∅ in
  let r := run_call w (cli_of w) ["-v"; "bogus"; "x"] in
  res_events r =
    [EWrite Stderr ("ERROR unknown command 'bogus'" +:+ newline); EFlush Stderr]
  /\ res_exit r = Exit 1.
Proof.
  intros w r.
  pose proof (unknown_command_reported w (cli_of w) ["-v"; "bogus"; "x"]
    (fst (configure w (cli_of w) ["-v"; "bogus"; "x"]
            (mk_state (cli_context (cli_of w)) [])))
    "bogus" ["x"]) as H.
  destruct H as (Hev & _ & _ & Hexit);
    [vm_compute; reflexivity | discriminate | vm_compute; reflexivity |].
  split; [exact Hev | exact Hexit].
Defined.

(** C10. When the invoked command raises a failure whose [text]
    attribute is there but empty ([None] or the empty string), the
    dispatcher writes nothing of its own, neither an [ERROR] line nor a
    trace, and returns the failure's [code] if it has one, else 1. *)
Theorem empty_message_silent w cli argv s1 tok rest inst evs err :
  configure w cli argv (mk_state (cli_context cli) []) = (s1, Val (tok :: rest)) ->
  commands cli !! resolve_alias tok = Some inst ->
  run inst rest (st_context s1) = (evs, Failed err) ->
  exc_text err = TextNone \/ exc_text err = Text EmptyString ->
  let r := run_call w cli argv in
  res_events r = EInvoke (resolve_alias tok) rest :: evs
  /\ report err = []
  /\ res_exit r = Exit (match exc_code err with Some c => c | None => 1 end).
Proof.
  intros Hconf Hcmd Hrun Htext r. subst r.
  rewrite (run_call_failed _ _ _ _ _ _ _ _ _ Hconf Hcmd Hrun).
  assert (report err = []) as Hrep
    by (unfold report; destruct Htext as [-> | ->]; reflexivity).
  rewrite Hrep, app_nil_r. cbn. repeat split.
Qed.

Lemma empty_message_silent_witness :
  let w := sample_world ∅ in
  let r := run_call w (cli_of w) ["delete"; "c"] in
  res_events r = [EInvoke "delete" ["c"]] /\ res_exit r = Exit 3.
Proof.
  intros w r.
  pose proof (empty_message_silent w (cli_of w) ["delete"; "c"]
    (fst (configure w (cli_of w) ["delete"; "c"]
            (mk_state (cli_context (cli_of w)) [])))
    "delete" ["c"] (classes w "swiftly.cli.delete.CLIDelete") []
    (ReturnCode (Text EmptyString) 3)) as H.
  destruct H as (Hev & _ & Hexit);
    [vm_compute; reflexivity | vm_compute; reflexivity | reflexivity
    | right; reflexivity |].
  split; [exact Hev | exact Hexit].
Defined.

(** ** Two-decimal stamps *)

Local Arguments String.append !_ _ / : simpl nomatch.

Lemma string_of_uint_digits d : all_digits (NilEmpty.string_of_uint d) = true.
Proof. induction d; simpl; auto. Qed.

Lemma dec_of_N_digits n :
  all_digits (dec_of_N n) = true /\ dec_of_N n <> EmptyString.
Proof.
  unfold dec_of_N, NilZero.string_of_uint.
  destruct (N.to_uint n) eqn:E; simpl;
    (split; [try reflexivity; apply string_of_uint_digits | discriminate]).
Qed.

Lemma is_digit_of_N q : (q <= 9)%N -> is_digit (ascii_of_N (48 + q)) = true.
Proof.
  intros Hq. unfold is_digit, code.
  rewrite N_ascii_embedding by lia.
  apply andb_true_intro; split; apply N.leb_le; lia.
Qed.

Lemma digits_dot_2_fixed d a b seen :
  all_digits d = true ->
  (d <> EmptyString \/ seen = true) ->
  is_digit a = true -> is_digit b = true ->
  digits_dot_2 (d +:+ "." +:+ String a (String b EmptyString)) seen = true.
Proof.
  intros Hd Hne Ha Hb. revert seen Hne.
  induction d as [|c d IH]; intros seen Hne.
  - destruct Hne as [Hne | ->]; [contradiction|].
    cbn -[is_digit].
    change (is_digit ".") with false. cbn -[is_digit].
    rewrite Ha, Hb. reflexivity.
  - cbn -[is_digit] in Hd. apply andb_prop in Hd as [Hc Hd].
    cbn -[is_digit]. rewrite Hc.
    apply IH; auto.
Qed.

Lemma fixed2_shape h : digits_dot_2 (fixed2 h) false = true.
Proof.
  unfold fixed2, two_digits.
  destruct (dec_of_N_digits (Z.to_N (h / 100))) as [Hd Hne].
  assert (0 <= h mod 100 < 100) as Hm by (apply Z.mod_pos_bound; lia).
  assert (Z.to_N (h mod 100) < 100)%N as Hn by lia.
  apply digits_dot_2_fixed; auto; apply is_digit_of_N.
  - assert (Z.to_N (h mod 100) / 10 < 10)%N
      by (apply N.Div0.div_lt_upper_bound; lia). lia.
  - assert (Z.to_N (h mod 100) mod 10 < 10)%N by (apply N.mod_lt; lia). lia.
Qed.

Lemma fixed2_not_minus h s : fixed2 h <> String "-" s.
Proof.
  unfold fixed2. destruct (dec_of_N_digits (Z.to_N (h / 100))) as [Hd Hne].
  destruct (dec_of_N (Z.to_N (h / 100))) as [|c d]; [contradiction|].
  cbn in Hd. apply andb_prop in Hd as [Hc _].
  cbn. intros [= -> _]. discriminate.
Qed.

(** A finite number is printed as an optional sign, digits, a point and
    two digits. *)
Lemma format_02f_fixed x : is_finite x = true -> is_fixed2 (format_02f x) = true.
Proof.
  unfold is_finite, format_02f.
  destruct (Prim2SF x) as [s|s| |s m e]; try discriminate; intros _.
  - destruct s; reflexivity.
  - destruct s; cbn [String.append].
    + cbn. apply fixed2_shape.
    + unfold is_fixed2. pose proof (fixed2_shape (hundredths m e)) as H.
      pose proof (fixed2_not_minus (hundredths m e)) as Hm.
      destruct (fixed2 (hundredths m e)) as [|c r]; [discriminate|].
      destruct c as [[] [] [] [] [] [] [] []]; try exact H.
      exfalso. eapply Hm. reflexivity.
Qed.

(** ** The verbose logger *)

Lemma written_debug_line b s1 s2 s3 :
  written (Debug b) [EWrite (Debug b) s1; EWrite (Debug b) s2;
                     EWrite (Debug b) s3; EFlush (Debug b)]
  = s1 +:+ s2 +:+ s3.
Proof.
  cbn. rewrite Bool.eqb_reflx.
  induction s1; cbn; [|congruence].
  induction s2; cbn; [|congruence].
  induction s3; cbn; congruence.
Qed.

Lemma append_assoc a b c : (a +:+ b) +:+ c = a +:+ (b +:+ c).
Proof. induction a; cbn; congruence. Qed.

Lemma verbose_off format c now msg args kwargs :
  verbosity_on c = false -> _verbose format c now msg args kwargs = ([], Done).
Proof. intros H. unfold _verbose. rewrite H. reflexivity. Qed.

(** C6. With verbosity on, a diagnostic call whose message formats
    writes, to the debug stream, [VERBOSE ], the seconds elapsed since
    the recorded start with two decimals, a space, the formatted message
    and a line end, and flushes; with verbosity off, any number of
    diagnostic calls writes nothing at all. *)
Theorem verbose_gate format c :
  (verbosity_on c = true ->
   forall now begin msg args kwargs s,
     original_begin c = Some begin ->
     format msg args = Formatted s ->
     let fp := Debug (truthy (default (PyBool false) (kwargs !! "skip_sub_command"))) in
     let stamp := format_02f (now - begin) in
     _verbose format c now msg args kwargs =
       ([EWrite fp ("VERBOSE " +:+ stamp +:+ " "); EWrite fp s; EWrite fp newline;
         EFlush fp], Done)
     /\ written fp (fst (_verbose format c now msg args kwargs)) =
          "VERBOSE " +:+ stamp +:+ " " +:+ s +:+ newline
     /\ (is_finite (now - begin) = true -> is_fixed2 stamp = true))
  /\ (verbosity_on c = false ->
      forall calls, verbose_calls format c calls = ([], Done)).
Proof.
  split.
  - intros Hon now begin msg args kwargs s Hbegin Hfmt fp stamp.
    assert (_verbose format c now msg args kwargs =
            ([EWrite fp ("VERBOSE " +:+ stamp +:+ " "); EWrite fp s;
              EWrite fp newline; EFlush fp], Done)) as Heq
      by (unfold _verbose; rewrite Hon, Hbegin, Hfmt; reflexivity).
    rewrite Heq. split; [reflexivity|]. split.
    + cbn [fst]. subst fp. rewrite written_debug_line.
      rewrite !append_assoc. reflexivity.
    + intros Hfin. apply format_02f_fixed, Hfin.
  - intros Hoff calls. induction calls as [|d calls IH]; [reflexivity|].
    cbn [verbose_calls]. rewrite verbose_off by exact Hoff.
    rewrite IH. reflexivity.
Qed.

Lemma verbose_gate_witness :
  _verbose sample_format context_on 1700000002.5%float "Attempting %s %s"
    [PyStr "GET"; PyStr "/v1/AUTH_test"] ∅ =
    ([EWrite (Debug false) "VERBOSE 2.50 ";
      EWrite (Debug false) "Attempting GET /v1/AUTH_test";
      EWrite (Debug false) newline; EFlush (Debug false)], Done)
  /\ verbose_calls sample_format context_off
       [mk_diag 1700000001%float "one %s" [PyStr "a"] ∅;
        mk_diag 1700000002%float "two %d" [PyStr "not a number"] ∅;
        mk_diag 1700000003%float "three" [] ∅] = ([], Done).
Proof.
  split.
  - destruct (proj1 (verbose_gate sample_format context_on) eq_refl
                1700000002.5%float 1700000000%float "Attempting %s %s"
                [PyStr "GET"; PyStr "/v1/AUTH_test"] ∅ "Attempting GET /v1/AUTH_test"
                eq_refl eq_refl) as [H _].
    rewrite H. vm_compute. reflexivity.
  - apply (proj2 (verbose_gate sample_format context_off) eq_refl).
Defined.

(** C7. With verbosity on, a diagnostic call whose message does not
    fit its arguments ([msg % args] raises a [TypeError]) raises a
    [TypeError] whose text is the original error followed by the [repr]
    of the message and the [repr] of the arguments; the call never ends
    normally. *)
Theorem format_mismatch_reraised format c now msg args kwargs err :
  verbosity_on c = true ->
  format msg args = FormatTypeError err ->
  exists evs reason,
    _verbose format c now msg args kwargs =
      (evs, Failed (TypeError
                      (reason +:+ ": " +:+ repr_str msg +:+ " " +:+ repr_tuple args)))
    /\ (original_begin c <> None -> reason = err)
    /\ _verbose format c now msg args kwargs <> (evs, Done).
Proof.
  intros Hon Hfmt. unfold _verbose. rewrite Hon, Hfmt.
  destruct (original_begin c) as [begin|]; eexists; eexists;
    (split; [reflexivity|]); (split; [|discriminate]).
  - reflexivity.
  - intros H. contradiction.
Qed.

Lemma format_mismatch_reraised_witness :
  exists evs,
    _verbose sample_format context_on 1700000002.5%float "two %d"
      [PyStr "not a number"] ∅ =
    (evs, Failed (TypeError
       ("%d format: a number is required: 'two %d' ('not a number',)"))).
Proof.
  destruct (format_mismatch_reraised sample_format context_on 1700000002.5%float
              "two %d" [PyStr "not a number"] ∅ "%d format: a number is required"
              eq_refl eq_refl) as (evs & reason & H & Hreason & _).
  exists evs. rewrite H, Hreason by discriminate. reflexivity.
Defined.

(** ** Option resolution *)

Lemma flag_value_snoc d toks t :
  flag_value d (toks ++ [t]) =
  if String.eqb (dest (tok_opt t)) d then Some (tok_pyval t) else flag_value d toks.
Proof. unfold flag_value. rewrite foldl_app. reflexivity. Qed.

(** [parse_args] leaves in [options.d] the value of the last flag for
    [d], and the default when no flag for [d] was passed. *)
Lemma attr_foldl_process d values toks :
  attr (foldl process values toks) d =
  match flag_value d toks with
  | Some v => v
  | None => attr values d
  end.
Proof.
  induction toks as [|t toks IH] using rev_ind; [reflexivity|].
  rewrite foldl_app, flag_value_snoc. cbn [foldl]. unfold process at 1.
  destruct (String.eqb (dest (tok_opt t)) d) eqn:E.
  - apply String.eqb_eq in E. subst d. unfold attr. rewrite lookup_insert_eq.
    reflexivity.
  - apply String.eqb_neq in E. unfold attr at 1. rewrite lookup_insert_ne by exact E.
    exact IH.
Qed.

Lemma parse_args_tokens table argv toks args :
  process_args table argv = inr (toks, args) ->
  parse_args table argv = inr (foldl process (defaults table) toks, args).
Proof. intros H. unfold parse_args. rewrite H. reflexivity. Qed.

Lemma parse_args_inv table argv options args :
  parse_args table argv = inr (options, args) ->
  exists toks, process_args table argv = inr (toks, args)
               /\ options = foldl process (defaults table) toks.
Proof.
  unfold parse_args. destruct (process_args table argv) as [e|[toks rest]];
    [discriminate|].
  intros [= <- <-]. eauto.
Qed.

Lemma int_environ_get env var d :
  env_integer_ok env var = true ->
  exists z, int_ (environ_get env var (PyInt d)) = inr z.
Proof.
  unfold env_integer_ok, environ_get. destruct (env !! var) as [s|]; cbn.
  - destruct (int_of_str s); [eauto | discriminate].
  - eauto.
Qed.

Lemma CLI_init_inv w cli :
  CLI_init w = inr cli ->
  exists retries concurrency,
    int_ (environ_get (environ w) "SWIFTLY_RETRIES" (PyInt 4)) = inr retries
    /\ int_ (environ_get (environ w) "SWIFTLY_CONCURRENCY" (PyInt 1)) = inr concurrency
    /\ cli = mk_CLI fresh_context (register w)
               (parser_own_options ++ option_table (environ w) retries concurrency).
Proof.
  unfold CLI_init, main_options.
  destruct (int_ (environ_get (environ w) "SWIFTLY_RETRIES" (PyInt 4))) as [e|r];
    [discriminate|].
  destruct (int_ (environ_get (environ w) "SWIFTLY_CONCURRENCY" (PyInt 1))) as [e|k];
    [discriminate|].
  intros [= <-]. eauto.
Qed.

Lemma CLI_init_total w :
  env_integers_ok (environ w) = true -> exists cli, CLI_init w = inr cli.
Proof.
  unfold env_integers_ok. intros H. apply andb_prop in H as [Hr Hc].
  destruct (int_environ_get _ _ 4 Hr) as [r Er].
  destruct (int_environ_get _ _ 1 Hc) as [k Ek].
  unfold CLI_init, main_options. rewrite Er, Ek. eauto.
Qed.

(** C5. A boolean option that has an environment variable and whose
    flag was not passed resolves to [True] exactly when the variable is
    set and its value, lowercased, is [true]; otherwise to [False]. *)
Theorem boolean_env_parse w cli argv toks args d var :
  CLI_init w = inr cli ->
  process_args (option_parser cli) argv = inr (toks, args) ->
  In (d, var) [("snet", "SWIFTLY_SNET"); ("cache_auth", "SWIFTLY_CACHE_AUTH")] ->
  flag_value d toks = None ->
  exists options b,
    parse_args (option_parser cli) argv = inr (options, args)
    /\ attr options d = PyBool b
    /\ (b = true <-> exists s, environ w !! var = Some s /\ lower s = "true").
Proof.
  intros Hinit Htoks Hin Hflag.
  apply CLI_init_inv in Hinit as (r & k & _ & _ & ->). cbn [option_parser] in *.
  eexists. exists (environ_true (environ w) var).
  split; [apply parse_args_tokens, Htoks|]. split.
  - rewrite attr_foldl_process, Hflag.
    destruct Hin as [[= <- <-] | [[= <- <-] | []]]; reflexivity.
  - unfold environ_true. destruct (environ w !! var) as [s|].
    + rewrite String.eqb_eq. split; [eauto|]. intros (s' & [= <-] & H). exact H.
    + split; [discriminate|]. intros (s' & [=] & _).
Qed.

Lemma boolean_env_parse_witness :
  let w := sample_world {[ "SWIFTLY_SNET" := "True"; "SWIFTLY_CACHE_AUTH" := "1" ]} in
  (exists options,
     parse_args (option_parser (cli_of w)) ["-v"; "get"] = inr (options, ["get"])
     /\ attr options "snet" = PyBool true)
  /\ (exists options,
        parse_args (option_parser (cli_of w)) ["-v"; "get"] = inr (options, ["get"])
        /\ attr options "cache_auth" = PyBool false).
Proof.
  intros w. split.
  - destruct (boolean_env_parse w (cli_of w) ["-v"; "get"]
                [Tok (Option_ ["-v"; "--verbose"] "verbose" store_true None) None]
                ["get"] "snet" "SWIFTLY_SNET")
      as (options & b & Hparse & Hsnet & Hb);
      [vm_compute; reflexivity | vm_compute; reflexivity | left; reflexivity
      | reflexivity |].
    exists options. split; [exact Hparse|]. rewrite Hsnet. f_equal.
    apply Hb. exists "True". split; vm_compute; reflexivity.
  - destruct (boolean_env_parse w (cli_of w) ["-v"; "get"]
                [Tok (Option_ ["-v"; "--verbose"] "verbose" store_true None) None]
                ["get"] "cache_auth" "SWIFTLY_CACHE_AUTH")
      as (options & b & Hparse & Hcache & Hb);
      [vm_compute; reflexivity | vm_compute; reflexivity | right; left; reflexivity
      | reflexivity |].
    exists options. split; [exact Hparse|]. rewrite Hcache. f_equal.
    destruct b; [|reflexivity].
    destruct (proj1 Hb eq_refl) as (v & Hv & Hlow).
    vm_compute in Hv. injection Hv as <-. vm_compute in Hlow. discriminate.
Defined.

Lemma read_integer_default env var d z :
  int_ (environ_get env var (PyInt d)) = inr z ->
  read KInteger (PyInt z) =
  read KInteger (match env !! var with Some s => PyStr s | None => PyInt d end).
Proof.
  unfold environ_get. destruct (env !! var) as [s|]; cbn.
  - destruct (int_of_str s); [|discriminate]. intros [= ->]. reflexivity.
  - intros [= ->]. reflexivity.
Qed.

(** C1, amended. Provided [SWIFTLY_RETRIES] and
    [SWIFTLY_CONCURRENCY], when set, hold integer literals, the parser
    is built, and for every command line that parses, each option reads
    as the rule gives it: the value of its flag when the flag was
    passed, else the value of its environment variable when that is
    set, else its default (4 retries, concurrency 1, booleans false,
    strings empty). *)
Theorem option_precedence w argv toks args :
  env_integers_ok (environ w) = true ->
  exists cli,
    CLI_init w = inr cli
    /\ (process_args (option_parser cli) argv = inr (toks, args) ->
        exists options,
          parse_args (option_parser cli) argv = inr (options, args)
          /\ forall o, In o documented_options ->
               read (doc_kind o) (attr options (doc_dest o)) =
               read (doc_kind o) (by_precedence o toks (environ w))).
Proof.
  intros Henv. destruct (CLI_init_total w Henv) as [cli Hinit].
  exists cli. split; [exact Hinit|]. intros Htoks.
  apply CLI_init_inv in Hinit as (r & k & Hr & Hk & ->). cbn [option_parser] in *.
  eexists. split; [apply parse_args_tokens, Htoks|].
  intros o Hin. rewrite attr_foldl_process. unfold by_precedence.
  destruct (flag_value (doc_dest o) toks) as [v|]; [reflexivity|].
  set (env := environ w) in *.
  repeat (destruct Hin as [<- | Hin];
          [cbn [doc_dest doc_kind doc_env doc_default from_env];
           first [ apply (read_integer_default env "SWIFTLY_RETRIES" 4 r Hr)
                 | apply (read_integer_default env "SWIFTLY_CONCURRENCY" 1 k Hk)
                 | match goal with
                   | |- context [env !! ?var] =>
                       change (attr _ _) with (environ_get env var (PyStr ""))
                       || change (attr _ _) with (PyBool (environ_true env var));
                       unfold environ_get, environ_true;
                       destruct (env !! var); reflexivity
                   end
                 | reflexivity ]
          |]).
  destruct Hin.
Qed.

Lemma option_precedence_witness :
  let w := sample_world {[ "SWIFTLY_RETRIES" := "2" ]} in
  exists cli options,
    CLI_init w = inr cli
    /\ parse_args (option_parser cli) ["--retries"; "7"; "get"] = inr (options, ["get"])
    /\ read KInteger (attr options "retries") = inr (PyInt 7)
    /\ read KInteger (attr options "concurrency") = inr (PyInt 1)
    /\ read KBoolean (attr options "snet") = inr (PyBool false).
Proof.
  intros w.
  destruct (option_precedence w ["--retries"; "7"; "get"]
              [Tok (Option_ ["-R"; "--retries"] "retries" store (Some (PyInt 2)))
                 (Some "7")]
              ["get"])
    as (cli & Hinit & H); [vm_compute; reflexivity|].
  pose proof Hinit as Hcli. vm_compute in Hcli. injection Hcli as Hcli.
  destruct H as (options & Hparse & Hall); [rewrite <- Hcli; vm_compute; reflexivity|].
  exists cli, options. split; [exact Hinit|]. split; [exact Hparse|].
  split; [|split].
  - apply (Hall (Doc "retries" KInteger (Some "SWIFTLY_RETRIES") (PyInt 4))).
    cbn. tauto.
  - apply (Hall (Doc "concurrency" KInteger (Some "SWIFTLY_CONCURRENCY") (PyInt 1))).
    cbn. tauto.
  - apply (Hall (Doc "snet" KBoolean (Some "SWIFTLY_SNET") (PyBool false))).
    cbn. tauto.
Defined.

Example retries_flag_over_env :
  resolved_retries (sample_world {[ "SWIFTLY_RETRIES" := "2" ]})
    ["--retries"; "7"; "get"] = Some (inr 7).
Proof. vm_compute. reflexivity. Qed.

Example retries_env_only :
  resolved_retries (sample_world {[ "SWIFTLY_RETRIES" := "2" ]}) ["get"] = Some (inr 2).
Proof. vm_compute. reflexivity. Qed.

Example retries_default :
  resolved_retries (sample_world ∅) ["get"] = Some (inr 4).
Proof. vm_compute. reflexivity. Qed.

(** C1, counterexample: with [SWIFTLY_RETRIES=abc] in the environment
    the flag [--retries 7] is passed and yet is not used; building the
    parser raises [ValueError] before any flag is read. *)
Lemma flag_over_malformed_env_counterexample :
  let w := sample_world {[ "SWIFTLY_RETRIES" := "abc" ]} in
  resolved_retries w ["--retries"; "7"; "get"] <> Some (inr 7)
  /\ main w ["--retries"; "7"; "get"] =
       inl (ValueError "invalid literal for int() with base 10: 'abc'").
Proof.
  intros w. split; [vm_compute; discriminate | vm_compute; reflexivity].
Qed.

(** ** Direct transport *)

Lemma same_but_auth_attr options options' d :
  same_but_auth options options' -> d ∉ auth_dests -> attr options d = attr options' d.
Proof. intros H Hd. unfold attr. rewrite (H d Hd). reflexivity. Qed.

Ltac not_auth :=
  unfold auth_dests; intros Hmem;
  repeat (apply elem_of_cons in Hmem as [Hmem | Hmem]; [discriminate|]);
  apply elem_of_nil in Hmem; exact Hmem.

(** The direct client manager is built exactly when the resolved
    direct path is non-empty, and then from the path, the retries and
    the eventlet switch alone. *)
Lemma build_client_manager_direct w options options' use_eventlet :
  same_but_auth options options' ->
  (forall m, build_client_manager w options use_eventlet = inr m ->
     (is_direct m = true <-> truthy (attr options "direct") = true)
     /\ (forall p, attr options "direct" = PyStr p ->
           (is_direct m = true <-> p <> EmptyString)))
  /\ (truthy (attr options "direct") = true ->
      build_client_manager w options use_eventlet =
      build_client_manager w options' use_eventlet
      /\ forall m, build_client_manager w options use_eventlet = inr m ->
           exists retries,
             int_ (attr options "retries") = inr retries
             /\ m = DirectManager (attr options "direct") (retries + 1) use_eventlet
                      (Verbose false)).
Proof.
  intros Hsame. split.
  - intros m. unfold build_client_manager.
    destruct (int_ (attr options "retries")) as [e|r]; [discriminate|].
    destruct (truthy (attr options "direct")) eqn:Hd; intros [= <-]; cbn.
    + split; [tauto|]. intros p Hp. rewrite Hp in Hd. unfold truthy in Hd.
      split; [|reflexivity]. intros _ ->. discriminate.
    + split; [tauto|]. intros p Hp. rewrite Hp in Hd. unfold truthy in Hd.
      split; [discriminate|]. intros Hne.
      destruct (String.eqb p "") eqn:E; [|discriminate].
      apply String.eqb_eq in E. contradiction.
  - intros Hd.
    assert (attr options "direct" = attr options' "direct") as Edirect
      by (apply same_but_auth_attr; [exact Hsame | not_auth]).
    assert (attr options "retries" = attr options' "retries") as Eretries
      by (apply same_but_auth_attr; [exact Hsame | not_auth]).
    unfold build_client_manager. rewrite <- Edirect, <- Eretries, Hd.
    split; [reflexivity|].
    intros m. destruct (int_ (attr options "retries")) as [e|r]; [discriminate|].
    intros [= <-]. eauto.
Qed.

(** The eventlet switch does not read the auth values either. *)
Lemma select_eventlet_same w w' options options' :
  same_but_auth options options' ->
  eventlet_version w = eventlet_version w' ->
  select_eventlet w options = select_eventlet w' options'.
Proof.
  intros Hsame Hver.
  assert (attr options "eventlet" = attr options' "eventlet") as Eev
    by (apply same_but_auth_attr; [exact Hsame | not_auth]).
  assert (attr options "no_eventlet" = attr options' "no_eventlet") as Enev
    by (apply same_but_auth_attr; [exact Hsame | not_auth]).
  unfold select_eventlet. rewrite Eev, Enev, Hver. reflexivity.
Qed.

Lemma same_but_auth_strip options options' :
  strip_auth options = strip_auth options' -> same_but_auth options options'.
Proof.
  intros H d Hd.
  assert (forall o : gmap string pyval, strip_auth o !! d = o !! d) as Hs.
  { intros o. unfold strip_auth, auth_dests in *. cbn [foldr].
    rewrite !lookup_delete_ne; [reflexivity|..];
      intros E; subst d; apply Hd; repeat constructor. }
  rewrite <- (Hs options), <- (Hs options'), H. reflexivity.
Qed.

(** What [configure] stores is the manager [build_client_manager]
    gives for the parsed options and the selected eventlet switch. *)
Lemma configure_client_manager w cli argv s s' args :
  configure w cli argv s = (s', Val args) ->
  exists options m,
    parse_args (option_parser cli) argv = inr (options, args)
    /\ build_client_manager w options (select_eventlet w options) = inr m
    /\ client_manager (st_context s') = Some m.
Proof.
  unfold configure. unfold_monad.
  destruct (parse_args (option_parser cli) argv) as [e|[options args']];
    [discriminate|].
  destruct (truthy (attr options "version")); [discriminate|].
  destruct (_ || _); [discriminate|].
  destruct (truthy (attr options "verbose")); cbn [st_context st_events];
    (destruct (build_client_manager _ _ _) as [e|m] eqn:Em; [discriminate|]);
    cbn [st_context st_events];
    (destruct (int_ (attr options "concurrency")) as [e|k]; [discriminate|]);
    intros H; injection H as <- <-; exists options, m; auto.
Qed.

Lemma options_of_parse cli argv options args :
  parse_args (option_parser cli) argv = inr (options, args) ->
  options_of cli argv = options.
Proof. intros H. unfold options_of. rewrite H. reflexivity. Qed.

(** C9. An invocation that reaches the command builds the direct
    client manager exactly when the resolved direct path is non-empty;
    and then a second invocation whose resolved options differ from its
    own at most in auth URL, user, key and tenant (in the same
    installation of eventlet) builds the same manager, made of the
    path, the retries plus one and the eventlet switch. *)
Theorem direct_transport_ignores_auth
    w w' cli cli' argv argv' s s' s1 s1' args args' :
  configure w cli argv s = (s1, Val args) ->
  configure w' cli' argv' s' = (s1', Val args') ->
  same_but_auth (options_of cli argv) (options_of cli' argv') ->
  eventlet_version w = eventlet_version w' ->
  let options := options_of cli argv in
  exists m,
    client_manager (st_context s1) = Some m
    /\ (is_direct m = true <-> truthy (attr options "direct") = true)
    /\ (forall p, attr options "direct" = PyStr p ->
          (is_direct m = true <-> p <> EmptyString))
    /\ (truthy (attr options "direct") = true ->
        client_manager (st_context s1') = Some m
        /\ exists retries,
             int_ (attr options "retries") = inr retries
             /\ m = DirectManager (attr options "direct") (retries + 1)
                      (select_eventlet w options) (Verbose false)).
Proof.
  intros Hconf Hconf' Hsame Hver options.
  apply configure_client_manager in Hconf as (o & m & Hparse & Hm & Hcm).
  apply configure_client_manager in Hconf' as (o' & m' & Hparse' & Hm' & Hcm').
  subst options.
  rewrite (options_of_parse _ _ _ _ Hparse) in *.
  rewrite (options_of_parse _ _ _ _ Hparse') in *.
  destruct (build_client_manager_direct w o o' (select_eventlet w o) Hsame)
    as [Hiff Hdirect].
  exists m. split; [exact Hcm|].
  destruct (Hiff m Hm) as [H1 H2]. split; [exact H1|]. split; [exact H2|].
  intros Hd. destruct (Hdirect Hd) as [Heq Hshape]. split; [|exact (Hshape m Hm)].
  rewrite Hcm'. f_equal.
  assert (build_client_manager w' o' (select_eventlet w' o') = inr m) as Hm2.
  { rewrite <- (select_eventlet_same w w' o o' Hsame Hver).
    destruct (Hshape m Hm) as (r & Hr & ->).
    assert (attr o "direct" = attr o' "direct") as Edirect
      by (apply same_but_auth_attr; [exact Hsame | not_auth]).
    assert (attr o "retries" = attr o' "retries") as Eretries
      by (apply same_but_auth_attr; [exact Hsame | not_auth]).
    unfold build_client_manager. rewrite <- Edirect, <- Eretries, Hr, Hd.
    reflexivity. }
  rewrite Hm2 in Hm'. injection Hm' as <-. reflexivity.
Qed.

Lemma direct_transport_ignores_auth_witness :
  let w := sample_world ∅ in
  let w' := sample_world {[ "SWIFTLY_AUTH_URL" := "http://b/auth" ]} in
  let argv := ["-D"; "/v1/AUTH_test"; "-A"; "http://a/auth"; "-U"; "u1"; "-K"; "k1";
               "get"] in
  let argv' := ["-D"; "/v1/AUTH_test"; "-T"; "t2"; "get"] in
  client_manager (res_context (run_call w (cli_of w) argv)) =
    Some (DirectManager (PyStr "/v1/AUTH_test") 5 true (Verbose false))
  /\ client_manager (res_context (run_call w' (cli_of w') argv')) =
       client_manager (res_context (run_call w (cli_of w) argv)).
Proof.
  intros w w' argv argv'.
  destruct (direct_transport_ignores_auth w w' (cli_of w) (cli_of w') argv argv'
              (mk_state (cli_context (cli_of w)) [])
              (mk_state (cli_context (cli_of w')) [])
              (fst (configure w (cli_of w) argv (mk_state (cli_context (cli_of w)) [])))
              (fst (configure w' (cli_of w') argv'
                      (mk_state (cli_context (cli_of w')) [])))
              ["get"] ["get"])
    as (m & Hm & _ & _ & H);
    [vm_compute; reflexivity | vm_compute; reflexivity
    | apply same_but_auth_strip; vm_compute; reflexivity | reflexivity |].
  destruct H as (Hm' & _); [vm_compute; reflexivity|].
  split; vm_compute; reflexivity.
Defined.

(** ** The alias [for] *)

Lemma process_args_cons table arg rest :
  process_args table (arg :: rest) =
  if String.eqb arg "--" then inr ([], rest)
  else
    match classify table arg with
    | None => inr ([], arg :: rest)
    | Some (inl e) => inl e
    | Some (inr (toks, None)) =>
        match process_args table rest with
        | inl e => inl e
        | inr (toks', args) => inr (toks ++ toks', args)
        end
    | Some (inr (toks, Some o)) =>
        match rest with
        | [] => inl (RequiresArgument o)
        | v :: rest' =>
            match process_args table rest' with
            | inl e => inl e
            | inr (toks', args) => inr (toks ++ Tok o (Some v) :: toks', args)
            end
        end
    end.
Proof. reflexivity. Qed.

(** The arguments left over are a tail of the command line. *)
Lemma process_args_length table n :
  forall argv toks args,
    (length argv <= n)%nat ->
    process_args table argv = inr (toks, args) ->
    (length args <= length argv)%nat.
Proof.
  induction n as [|n IH]; intros argv toks args Hn.
  - destruct argv; [|cbn in Hn; lia]. intros [= _ <-]. cbn. lia.
  - destruct argv as [|arg rest]; [intros [= _ <-]; cbn; lia|].
    cbn [length] in Hn. rewrite process_args_cons.
    destruct (String.eqb arg "--"); [intros [= _ <-]; cbn; lia|].
    destruct (classify table arg) as [[e|[toks0 [o|]]]|].
    + discriminate.
    + destruct rest as [|v rest']; [discriminate|].
      destruct (process_args table rest') as [e|[toks' args']] eqn:E; [discriminate|].
      intros [= _ <-]. apply IH in E; cbn in *; lia.
    + destruct (process_args table rest) as [e|[toks' args']] eqn:E; [discriminate|].
      intros [= _ <-]. apply IH in E; cbn in *; lia.
    + intros [= _ <-]. lia.
Qed.

(** Parsing does not look at the first argument it leaves: another
    token that is not a flag can stand in its place. *)
Lemma process_args_retarget table b n :
  String.eqb b "--" = false ->
  classify table b = None ->
  forall argv toks a rest,
    (length argv <= n)%nat ->
    process_args table argv = inr (toks, a :: rest) ->
    process_args table (take (length argv - S (length rest)) argv ++ b :: rest)
    = inr (toks, b :: rest).
Proof.
  intros Hb Hcl. induction n as [|n IH]; intros argv toks a rest Hn.
  - destruct argv; [|cbn in Hn; lia]. discriminate.
  - destruct argv as [|arg tl]; [discriminate|].
    cbn [length] in Hn. rewrite process_args_cons.
    destruct (String.eqb arg "--") eqn:Edd.
    { intros [= <- ->]. cbn [length].
      replace (S (S (length rest)) - S (length rest))%nat with 1%nat by lia.
      cbn [take app]. rewrite process_args_cons, Edd. reflexivity. }
    destruct (classify table arg) as [[e|[toks0 [o|]]]|] eqn:Ecl.
    + discriminate.
    + destruct tl as [|v tl']; [discriminate|].
      destruct (process_args table tl') as [e|[toks' args']] eqn:E; [discriminate|].
      intros [= <- ->].
      pose proof (process_args_length table n tl' toks' (a :: rest) ltac:(cbn in Hn; lia) E)
        as Hlen.
      cbn [length] in *.
      replace (S (S (length tl')) - S (length rest))%nat
        with (S (S (length tl' - S (length rest)))) by lia.
      cbn [take app]. rewrite process_args_cons, Edd, Ecl.
      rewrite (IH tl' toks' a rest ltac:(lia) E). reflexivity.
    + destruct (process_args table tl) as [e|[toks' args']] eqn:E; [discriminate|].
      intros [= <- ->].
      pose proof (process_args_length table n tl toks' (a :: rest) ltac:(lia) E) as Hlen.
      cbn [length] in *.
      replace (S (length tl) - S (length rest))%nat
        with (S (length tl - S (length rest))) by lia.
      cbn [take app]. rewrite process_args_cons, Edd, Ecl.
      rewrite (IH tl toks' a rest ltac:(lia) E). reflexivity.
    + intros [= <- <- <-]. cbn [length].
      replace (S (length tl) - S (length tl))%nat with 0%nat by lia.
      cbn [take app]. rewrite process_args_cons, Hb, Hcl. reflexivity.
Qed.

Lemma parse_args_retarget table b argv options a rest :
  String.eqb b "--" = false ->
  classify table b = None ->
  parse_args table argv = inr (options, a :: rest) ->
  parse_args table (take (length argv - S (length rest)) argv ++ b :: rest)
  = inr (options, b :: rest).
Proof.
  intros Hb Hcl Hparse.
  apply parse_args_inv in Hparse as (toks & Htoks & ->).
  apply parse_args_tokens.
  apply (process_args_retarget table b (length argv) Hb Hcl argv toks a rest);
    [lia | exact Htoks].
Qed.

(** [configure], step by step. *)
Lemma configure_unfold w cli argv s :
  configure w cli argv s =
  let c1 := set_original_args argv
              (set_original_begin (Some (time_time w)) (st_context s)) in
  match parse_args (option_parser cli) argv with
  | inl _ => (mk_state c1 (st_events s ++ [EParserError]), Return 1)
  | inr (options, args) =>
      if truthy (attr options "version")
      then (mk_state c1 (st_events s ++ [EPrintVersion]), Return 1)
      else if match args with [] => true | _ => false end
              || truthy (attr options "help")
      then (mk_state c1 (st_events s ++ [EPrintHelp]), Return 1)
      else
        let c2 := prepared w options args c1 in
        match build_client_manager w options (select_eventlet w options) with
        | inl e => (mk_state c2 (st_events s), Raise e)
        | inr m =>
            let c3 := set_cdn (attr options "cdn") (set_client_manager (Some m) c2) in
            match int_ (attr options "concurrency") with
            | inl e => (mk_state c3 (st_events s), Raise e)
            | inr k => (mk_state (set_concurrency (Some k) c3) (st_events s), Val args)
            end
        end
  end.
Proof.
  unfold configure, prepared. unfold_monad.
  destruct (parse_args (option_parser cli) argv) as [e|[options args]];
    [reflexivity|].
  destruct (truthy (attr options "version")); [reflexivity|].
  destruct (_ || _); [reflexivity|].
  destruct (truthy (attr options "verbose")); cbn [st_context st_events];
    (destruct (build_client_manager _ _ _) as [e|m]; [reflexivity|]);
    cbn [st_context st_events];
    (destruct (int_ (attr options "concurrency")) as [e|k]; reflexivity).
Qed.

Lemma run_call_found w cli argv s1 tok rest inst :
  configure w cli argv (mk_state (cli_context cli) []) = (s1, Val (tok :: rest)) ->
  commands cli !! resolve_alias tok = Some inst ->
  run_call w cli argv =
    finish (st_context s1) (resolve_alias tok) rest (run inst rest (st_context s1)).
Proof.
  intros Hconf Hcmd.
  rewrite (run_call_dispatch _ _ _ _ _ Hconf).
  unfold dispatch. rewrite Hcmd. unfold_monad.
  destruct (run inst rest (st_context s1)) as [evs [|err|err]]; reflexivity.
Qed.

(** C8, amended. An invocation whose command token is
    [for] looks up and invokes the command registered as [fordo] with
    the same argument slice as the invocation that spells [fordo], in a
    context that is the same except for [original_args], which keeps the
    command line as typed; for a command that does not depend on that
    attribute both invocations write the same and exit the same. *)
Theorem alias_for_fordo w cli argv s1 rest inst :
  configure w cli argv (mk_state (cli_context cli) []) = (s1, Val ("for" :: rest)) ->
  commands cli !! "fordo" = Some inst ->
  let argv' := original_main_args (st_context s1) ++ "fordo" :: rest in
  let r := run_call w cli argv in
  let r' := run_call w cli argv' in
  res_context r' = set_original_args argv' (res_context r)
  /\ r = finish (res_context r) "fordo" rest (run inst rest (res_context r))
  /\ r' = finish (res_context r') "fordo" rest (run inst rest (res_context r'))
  /\ (run inst rest (res_context r') = run inst rest (res_context r) ->
      res_events r' = res_events r /\ res_exit r' = res_exit r).
Proof.
  intros Hconf Hcmd argv' r r'.
  pose proof Hconf as Hc. rewrite configure_unfold in Hc. cbn zeta in Hc.
  destruct (parse_args (option_parser cli) argv) as [e|[options args]] eqn:Hparse;
    [discriminate|].
  destruct (truthy (attr options "version")) eqn:Hver; [discriminate|].
  destruct (_ || _) eqn:Hhelp; [discriminate|].
  destruct (build_client_manager _ _ _) as [e|m] eqn:Hm; [discriminate|].
  destruct (int_ (attr options "concurrency")) as [e|k] eqn:Hk; [discriminate|].
  injection Hc as Hs1 Hargs. subst args.
  apply orb_false_elim in Hhelp as [_ Hhelp].
  assert (original_main_args (st_context s1)
          = take (length argv - S (length rest)) argv) as Hmain.
  { rewrite <- Hs1. unfold prepared.
    destruct (truthy (attr options "verbose")); reflexivity. }
  assert (parse_args (option_parser cli) argv' = inr (options, "fordo" :: rest))
    as Hparse'.
  { subst argv'. rewrite Hmain.
    apply (parse_args_retarget _ "fordo" argv options "for" rest);
      [reflexivity | reflexivity | exact Hparse]. }
  assert (configure w cli argv' (mk_state (cli_context cli) [])
          = (mk_state (set_original_args argv' (st_context s1)) [],
             Val ("fordo" :: rest))) as Hconf'.
  { rewrite configure_unfold. cbn zeta. rewrite Hparse', Hver, Hhelp, Hm, Hk.
    cbn [orb]. f_equal. f_equal. rewrite <- Hs1. unfold prepared.
    cbn [st_context original_args set_original_args set_original_begin].
    assert (take (length argv' - length ("fordo" :: rest)) argv'
            = take (length argv - length ("for" :: rest)) argv) as Htake.
    { cbn [length]. rewrite <- Hmain. subst argv'.
      apply take_app_length'. rewrite length_app. cbn [length]. lia. }
    rewrite Htake.
    destruct (truthy (attr options "verbose")); reflexivity. }
  assert (r = finish (st_context s1) "fordo" rest (run inst rest (st_context s1)))
    as Hr by (apply (run_call_found w cli argv s1 "for" rest inst Hconf Hcmd)).
  assert (r' = finish (set_original_args argv' (st_context s1)) "fordo" rest
                 (run inst rest (set_original_args argv' (st_context s1))))
    as Hr' by (apply (run_call_found w cli argv' _ "fordo" rest inst Hconf' Hcmd)).
  assert (res_context r = st_context s1) as Hctx
    by (rewrite Hr; destruct (run inst rest (st_context s1)) as [evs [|err|err]];
        reflexivity).
  assert (res_context r' = set_original_args argv' (st_context s1)) as Hctx'
    by (rewrite Hr';
        destruct (run inst rest (set_original_args argv' (st_context s1)))
          as [evs [|err|err]]; reflexivity).
  rewrite Hctx, Hctx'.
  split; [reflexivity|]. split; [exact Hr|]. split; [exact Hr'|].
  intros Hsame. rewrite Hr, Hr', Hsame.
  destruct (run inst rest (st_context s1)) as [evs [|err|err]]; split; reflexivity.
Qed.

Lemma alias_for_fordo_witness :
  let w := sample_world ∅ in
  let r := run_call w (cli_of w) ["-v"; "for"; "x"; "do"; "ping"] in
  let r' := run_call w (cli_of w) ["-v"; "fordo"; "x"; "do"; "ping"] in
  res_events r = [EInvoke "fordo" ["x"; "do"; "ping"]; EOutput "fordo x do ping"]
  /\ res_events r' = res_events r
  /\ res_exit r' = res_exit r.
Proof.
  intros w r r'.
  destruct (alias_for_fordo w (cli_of w) ["-v"; "for"; "x"; "do"; "ping"]
              (fst (configure w (cli_of w) ["-v"; "for"; "x"; "do"; "ping"]
                      (mk_state (cli_context (cli_of w)) [])))
              ["x"; "do"; "ping"] (classes w "swiftly.cli.fordo.CLIForDo"))
    as (_ & _ & _ & H); [vm_compute; reflexivity | vm_compute; reflexivity |].
  split; [vm_compute; reflexivity|].
  apply H. reflexivity.
Defined.

(** C8, counterexample: the two invocations do not run
    the command in the same context, as [original_args] records [for]
    in one and [fordo] in the other. *)
Lemma alias_context_counterexample :
  let w := sample_world ∅ in
  let r := run_call w (cli_of w) ["for"; "x"] in
  let r' := run_call w (cli_of w) ["fordo"; "x"] in
  invoked (res_events r) = [("fordo", ["x"])]
  /\ invoked (res_events r') = [("fordo", ["x"])]
  /\ original_args (res_context r) = ["for"; "x"]
  /\ original_args (res_context r') = ["fordo"; "x"]
  /\ res_context r <> res_context r'.
Proof.
  intros w r r'.
  repeat (split; [vm_compute; reflexivity|]).
  intros H. apply (f_equal original_args) in H. vm_compute in H. discriminate.
Qed.

(** ** Reaching the command, and runs of the sample installation *)

(** When [configure] hands the arguments over to the lookup: the
    command line parses, neither version nor help is asked for, a
    command token is there, and [retries] and [concurrency] convert. *)
Lemma configure_val_iff w cli argv s s' args :
  configure w cli argv s = (s', Val args) <->
  exists options m k,
    parse_args (option_parser cli) argv = inr (options, args)
    /\ truthy (attr options "version") = false
    /\ args <> []
    /\ truthy (attr options "help") = false
    /\ build_client_manager w options (select_eventlet w options) = inr m
    /\ int_ (attr options "concurrency") = inr k
    /\ s' = mk_state
              (set_concurrency (Some k)
                 (set_cdn (attr options "cdn")
                    (set_client_manager (Some m)
                       (prepared w options args
                          (set_original_args argv
                             (set_original_begin (Some (time_time w))
                                (st_context s)))))))
              (st_events s).
Proof.
  rewrite configure_unfold. cbn zeta. split.
  - destruct (parse_args (option_parser cli) argv) as [e|[options args']];
      [discriminate|].
    destruct (truthy (attr options "version")) eqn:Hver; [discriminate|].
    destruct args' as [|a args']; [discriminate|]. cbn [orb].
    destruct (truthy (attr options "help")) eqn:Hhelp; [discriminate|].
    destruct (build_client_manager _ _ _) as [e|m] eqn:Hm; [discriminate|].
    destruct (int_ (attr options "concurrency")) as [e|k] eqn:Hk; [discriminate|].
    intros [= <- <-]. exists options, m, k. repeat split; auto; discriminate.
  - intros (options & m & k & -> & -> & Hargs & Hhelp & Hm & Hk & ->).
    destruct args as [|a args]; [contradiction|]. cbn [orb].
    rewrite Hhelp, Hm, Hk. reflexivity.
Qed.

Example run_no_arguments :
  observed (main (sample_world ∅) []) = inr ([EPrintHelp], Exit 1).
Proof. vm_compute. reflexivity. Qed.

Example run_version :
  observed (main (sample_world ∅) ["--version"; "get"]) = inr ([EPrintVersion], Exit 1).
Proof. vm_compute. reflexivity. Qed.

Example run_unknown_flag :
  observed (main (sample_world ∅) ["--bogus"; "get"]) = inr ([EParserError], Exit 1).
Proof. vm_compute. reflexivity. Qed.

Example run_success :
  observed (main (sample_world ∅) ["-SCR5"; "--direct=/v1/AUTH_test"; "ping"; "-v"])
  = inr ([EInvoke "ping" ["-v"]; EOutput "ping -v"], Exit 0).
Proof. vm_compute. reflexivity. Qed.

Example run_bad_retries_flag :
  observed (main (sample_world ∅) ["-R"; "x"; "bogus"])
  = inr ([], Uncaught (ValueError "invalid literal for int() with base 10: 'x'")).
Proof. vm_compute. reflexivity. Qed.

Example lower_True : lower "True" = "true".
Proof. reflexivity. Qed.

Example repr_bogus : repr_str "bogus" = "'bogus'".
Proof. reflexivity. Qed.

Example repr_with_quote :
  repr_str "it's" = String dquote ("it's" +:+ String dquote EmptyString).
Proof. reflexivity. Qed.

Example repr_line_end : repr_str ("a" +:+ newline) = "'a\n'".
Proof. reflexivity. Qed.

Example int_spaces : int_of_str " 7 " = Some 7.
Proof. reflexivity. Qed.

Example int_negative : int_of_str "-12" = Some (-12).
Proof. reflexivity. Qed.

Example int_empty : int_of_str "" = None.
Proof. reflexivity. Qed.

Example format_half_even : format_02f 0.125%float = "0.12".
Proof. vm_compute. reflexivity. Qed.

Example format_elapsed :
  format_02f (1700000000.75 - 1700000000.5)%float = "0.25".
Proof. vm_compute. reflexivity. Qed.

Example format_negative : format_02f (-2.5)%float = "-2.50".
Proof. vm_compute. reflexivity. Qed.

Example version_compared_as_text : str_ge "0.9.16" "0.11.0" = true.
Proof. reflexivity. Qed.

(** An invocation that reaches the command has recorded its start, so
    the logger always has a time to subtract. *)
Lemma configure_records_begin w cli argv s s' args :
  configure w cli argv s = (s', Val args) ->
  original_begin (st_context s') = Some (time_time w)
  /\ original_args (st_context s') = argv.
Proof.
  intros H. apply configure_val_iff in H
    as (options & m & k & _ & _ & _ & _ & _ & _ & ->).
  unfold prepared. destruct (truthy (attr options "verbose")); split; reflexivity.
Qed.

(** With [-v] the context holds the logger and verbosity is on;
    without it the context holds neither. *)
Lemma configure_verbosity w cli argv s s' args :
  verbosity (st_context s) = None ->
  verbose (st_context s) = None ->
  configure w cli argv s = (s', Val args) ->
  (truthy (attr (options_of cli argv) "verbose") = true ->
     verbosity_on (st_context s') = true
     /\ verbose (st_context s') = Some (Verbose false)
     /\ io_verbose (io_manager (st_context s')) = Some (Verbose true))
  /\ (truthy (attr (options_of cli argv) "verbose") = false ->
      verbosity_on (st_context s') = false
      /\ verbose (st_context s') = None).
Proof.
  intros Hv Hc H. apply configure_val_iff in H
    as (options & m & k & Hparse & _ & _ & _ & _ & _ & ->).
  rewrite (options_of_parse _ _ _ _ Hparse).
  unfold prepared, verbosity_on.
  split; intros Hverb; rewrite Hverb; cbn; [auto|].
  rewrite Hv, Hc. auto.
Qed.

Example run_verbose_message :
  call_back sample_format (Verbose true) context_on 1700000001.25%float
    "Establishing connection to %s" [PyStr "127.0.0.1"]
  = ([EWrite (Debug true) "VERBOSE 1.25 ";
      EWrite (Debug true) "Establishing connection to 127.0.0.1";
      EWrite (Debug true) newline; EFlush (Debug true)], Done).
Proof. vm_compute. reflexivity. Qed.

(** * Further properties of the module *)

(** ** The registry of commands (lines 94-99) *)

Lemma register_foldl w : register w = foldl (register_step w) ∅ COMMANDS.
Proof. reflexivity. Qed.

Lemma foldl_register_sound w l :
  forall m n inst,
    foldl (register_step w) m l !! n = Some inst ->
    m !! n = Some inst \/ (name inst = n /\ exists path, In path l /\ inst = classes w path).
Proof.
  induction l as [|p l IH]; intros m n inst H; [left; exact H|].
  cbn [foldl] in H. apply IH in H as [H | (Hn & path & Hin & Hp)].
  - unfold register_step in H. destruct (decide (name (classes w p) = n)) as [E|E].
    + subst n. rewrite lookup_insert_eq in H. injection H as <-.
      right. split; [reflexivity|]. exists p. split; [left; reflexivity | reflexivity].
    + rewrite lookup_insert_ne in H by exact E. left. exact H.
  - right. split; [exact Hn|]. exists path. split; [right; exact Hin | exact Hp].
Qed.

Lemma foldl_register_other w l :
  forall m n,
    (forall q, In q l -> name (classes w q) <> n) ->
    foldl (register_step w) m l !! n = m !! n.
Proof.
  induction l as [|p l IH]; intros m n Hn; [reflexivity|].
  cbn [foldl]. rewrite IH by (intros q Hq; apply Hn; right; exact Hq).
  unfold register_step. apply lookup_insert_ne. apply Hn. left. reflexivity.
Qed.

Lemma foldl_register_last w l1 p l2 m :
  (forall q, In q l2 -> name (classes w q) <> name (classes w p)) ->
  foldl (register_step w) m (l1 ++ p :: l2) !! name (classes w p) = Some (classes w p).
Proof.
  intros Hn. rewrite foldl_app. cbn [foldl].
  rewrite foldl_register_other by exact Hn.
  unfold register_step. apply lookup_insert_eq.
Qed.

Lemma last_with_name w n l :
  (exists path, In path l /\ name (classes w path) = n) ->
  exists l1 p l2,
    l = l1 ++ p :: l2 /\ name (classes w p) = n
    /\ forall q, In q l2 -> name (classes w q) <> n.
Proof.
  induction l as [|c l IH]; intros (path & Hin & Hn); [destruct Hin|].
  destruct (existsb (fun q => String.eqb (name (classes w q)) n) l) eqn:Ex.
  - apply existsb_exists in Ex as (q & Hq & Hqn). apply String.eqb_eq in Hqn.
    destruct IH as (l1 & p & l2 & -> & Hp & Hl2); [eauto|].
    exists (c :: l1), p, l2. auto.
  - assert (forall q, In q l -> name (classes w q) <> n) as Hno.
    { intros q Hq Hqn. apply not_true_iff_false in Ex. apply Ex.
      apply existsb_exists. exists q. split; [exact Hq|].
      apply String.eqb_eq, Hqn. }
    destruct Hin as [-> | Hin]; [|exfalso; exact (Hno path Hin Hn)].
    exists [], path, l. auto.
Qed.

(** X1. Whatever the lookup of a name finds is an instance of one of
    the [COMMANDS] classes and bears that name; and a name is found
    exactly when some class of [COMMANDS] makes an instance with that
    name. *)
Theorem registry_lookup w n :
  (forall inst, register w !! n = Some inst ->
     name inst = n /\ exists path, In path COMMANDS /\ inst = classes w path)
  /\ (is_Some (register w !! n) <->
      exists path, In path COMMANDS /\ name (classes w path) = n).
Proof.
  split.
  - intros inst H. rewrite register_foldl in H.
    apply foldl_register_sound in H as [H | H]; [|exact H].
    rewrite lookup_empty in H. discriminate.
  - split.
    + intros [inst H]. rewrite register_foldl in H.
      apply foldl_register_sound in H as [H | (Hn & path & Hin & ->)].
      * rewrite lookup_empty in H. discriminate.
      * exists path. split; assumption.
    + intros H. rewrite register_foldl.
      apply last_with_name in H as (l1 & p & l2 & E & Hp & Hl2).
      rewrite E. subst n. rewrite (foldl_register_last w l1 p l2 ∅ Hl2). eauto.
Qed.

(** X2. The class that comes last in [COMMANDS] among those whose
    instances bear a given name is the one registered under it: with
    distinct names every class is found under its own name, and a class
    whose name comes again later is silently replaced. *)
Theorem registry_last_wins w l1 path l2 :
  COMMANDS = l1 ++ path :: l2 ->
  (forall q, In q l2 -> name (classes w q) <> name (classes w path)) ->
  register w !! name (classes w path) = Some (classes w path).
Proof.
  intros E Hl2. rewrite register_foldl, E. apply foldl_register_last, Hl2.
Qed.

Lemma registry_last_wins_witness :
  register (sample_world ∅) !! "get" = Some (sample_classes "swiftly.cli.get.CLIGet").
Proof.
  apply (registry_last_wins (sample_world ∅)
           [ "swiftly.cli.auth.CLIAuth"; "swiftly.cli.decrypt.CLIDecrypt";
             "swiftly.cli.delete.CLIDelete"; "swiftly.cli.encrypt.CLIEncrypt";
             "swiftly.cli.fordo.CLIForDo" ]
           "swiftly.cli.get.CLIGet"
           [ "swiftly.cli.head.CLIHead"; "swiftly.cli.help.CLIHelp";
             "swiftly.cli.ping.CLIPing"; "swiftly.cli.post.CLIPost";
             "swiftly.cli.put.CLIPut"; "swiftly.cli.tempurl.CLITempURL";
             "swiftly.cli.trans.CLITrans" ]).
  - reflexivity.
  - intros q Hq Hn.
    repeat (destruct Hq as [<- | Hq]; [vm_compute in Hn; discriminate|]).
    destruct Hq.
Defined.

(** ** Building the parser (lines 173 and 193) *)

(** X3. The parser is built exactly when [SWIFTLY_RETRIES] and
    [SWIFTLY_CONCURRENCY], if set, hold integer literals; otherwise the
    constructor raises the [ValueError] of [int] on the offending
    value, that of [SWIFTLY_RETRIES] first. *)
Theorem CLI_init_raises w :
  (env_integers_ok (environ w) = true <-> exists cli, CLI_init w = inr cli)
  /\ forall e, CLI_init w = inl e ->
       exists var s,
         In var ["SWIFTLY_RETRIES"; "SWIFTLY_CONCURRENCY"]
         /\ environ w !! var = Some s
         /\ int_of_str s = None
         /\ e = ValueError ("invalid literal for int() with base 10: " +:+ repr_str s)
         /\ (var = "SWIFTLY_CONCURRENCY" ->
             env_integer_ok (environ w) "SWIFTLY_RETRIES" = true).
Proof.
  split; [split; [apply CLI_init_total|]|].
  - intros [cli H]. apply CLI_init_inv in H as (r & k & Hr & Hk & _).
    unfold env_integers_ok, env_integer_ok. unfold environ_get, int_ in Hr, Hk.
    destruct (environ w !! "SWIFTLY_RETRIES") as [s|];
      [destruct (int_of_str s); [|discriminate]|];
      (destruct (environ w !! "SWIFTLY_CONCURRENCY") as [s'|];
       [destruct (int_of_str s'); [|discriminate]|]); reflexivity.
  - intros e. unfold CLI_init, main_options, env_integer_ok, environ_get, int_.
    destruct (environ w !! "SWIFTLY_RETRIES") as [s|] eqn:Er.
    + destruct (int_of_str s) eqn:Es.
      * destruct (environ w !! "SWIFTLY_CONCURRENCY") as [s'|] eqn:Ec;
          [|discriminate].
        destruct (int_of_str s') eqn:Es'; [discriminate|].
        intros [= <-]. exists "SWIFTLY_CONCURRENCY", s'.
        repeat split; auto. right. left. reflexivity.
      * intros [= <-]. exists "SWIFTLY_RETRIES", s.
        repeat split; auto; [left; reflexivity | discriminate].
    + destruct (environ w !! "SWIFTLY_CONCURRENCY") as [s'|] eqn:Ec;
        [|discriminate].
      destruct (int_of_str s') eqn:Es'; [discriminate|].
      intros [= <-]. exists "SWIFTLY_CONCURRENCY", s'.
      repeat split; auto. right. left. reflexivity.
Qed.

(** ** What the parser leaves (lines 245-264) *)

(** The arguments left over are the end of the command line. *)
Lemma process_args_suffix table n :
  forall argv toks args,
    (length argv <= n)%nat ->
    process_args table argv = inr (toks, args) ->
    take (length argv - length args) argv ++ args = argv.
Proof.
  induction n as [|n IH]; intros argv toks args Hn.
  - destruct argv; [|cbn in Hn; lia]. intros [= _ <-]. reflexivity.
  - destruct argv as [|arg tl]; [intros [= _ <-]; reflexivity|].
    cbn [length] in Hn. rewrite process_args_cons.
    destruct (String.eqb arg "--").
    { intros [= _ <-]. cbn [length].
      replace (S (length tl) - length tl)%nat with 1%nat by lia. reflexivity. }
    destruct (classify table arg) as [[e|[toks0 [o|]]]|].
    + discriminate.
    + destruct tl as [|v tl']; [discriminate|].
      destruct (process_args table tl') as [e|[toks' args']] eqn:E; [discriminate|].
      intros [= _ <-].
      pose proof (process_args_length table n tl' toks' args' ltac:(cbn in Hn; lia) E).
      cbn [length] in *.
      replace (S (S (length tl')) - length args')%nat
        with (S (S (length tl' - length args'))) by lia.
      cbn [take app]. rewrite (IH tl' toks' args' ltac:(lia) E). reflexivity.
    + destruct (process_args table tl) as [e|[toks' args']] eqn:E; [discriminate|].
      intros [= _ <-].
      pose proof (process_args_length table n tl toks' args' ltac:(lia) E).
      cbn [length] in *.
      replace (S (length tl) - length args')%nat
        with (S (length tl - length args')) by lia.
      cbn [take app]. rewrite (IH tl toks' args' ltac:(lia) E). reflexivity.
    + intros [= _ <-]. cbn [length].
      replace (S (length tl) - S (length tl))%nat with 0%nat by lia. reflexivity.
Qed.

(** What follows the first argument left over is never looked at. *)
Lemma process_args_tail table n :
  forall argv toks a rest rest',
    (length argv <= n)%nat ->
    process_args table argv = inr (toks, a :: rest) ->
    process_args table (take (length argv - S (length rest)) argv ++ a :: rest')
    = inr (toks, a :: rest').
Proof.
  induction n as [|n IH]; intros argv toks a rest rest' Hn.
  - destruct argv; [|cbn in Hn; lia]. discriminate.
  - destruct argv as [|arg tl]; [discriminate|].
    cbn [length] in Hn. rewrite process_args_cons.
    destruct (String.eqb arg "--") eqn:Edd.
    { intros [= <- ->]. cbn [length].
      replace (S (S (length rest)) - S (length rest))%nat with 1%nat by lia.
      cbn [take app]. rewrite process_args_cons, Edd. reflexivity. }
    destruct (classify table arg) as [[e|[toks0 [o|]]]|] eqn:Ecl.
    + discriminate.
    + destruct tl as [|v tl']; [discriminate|].
      destruct (process_args table tl') as [e|[toks' args']] eqn:E; [discriminate|].
      intros [= <- ->].
      pose proof (process_args_length table n tl' toks' (a :: rest) ltac:(cbn in Hn; lia) E)
        as Hlen.
      cbn [length] in *.
      replace (S (S (length tl')) - S (length rest))%nat
        with (S (S (length tl' - S (length rest)))) by lia.
      cbn [take app]. rewrite process_args_cons, Edd, Ecl.
      rewrite (IH tl' toks' a rest rest' ltac:(lia) E). reflexivity.
    + destruct (process_args table tl) as [e|[toks' args']] eqn:E; [discriminate|].
      intros [= <- ->].
      pose proof (process_args_length table n tl toks' (a :: rest) ltac:(lia) E) as Hlen.
      cbn [length] in *.
      replace (S (length tl) - S (length rest))%nat
        with (S (length tl - S (length rest))) by lia.
      cbn [take app]. rewrite process_args_cons, Edd, Ecl.
      rewrite (IH tl toks' a rest rest' ltac:(lia) E). reflexivity.
    + intros [= <- <- <-]. cbn [length].
      replace (S (length tl) - S (length tl))%nat with 0%nat by lia.
      cbn [take app]. rewrite process_args_cons, Edd, Ecl. reflexivity.
Qed.

(** X4. With interspersed arguments disabled, whatever follows the
    command token is passed through and never read by the main parser:
    the options resolve the same, and the same main arguments are
    consumed, for any other tail after the same token. *)
Theorem options_after_command_untouched table argv options a rest rest' :
  parse_args table argv = inr (options, a :: rest) ->
  let main := take (length argv - S (length rest)) argv in
  argv = main ++ a :: rest
  /\ parse_args table (main ++ a :: rest') = inr (options, a :: rest').
Proof.
  intros Hparse main.
  apply parse_args_inv in Hparse as (toks & Htoks & ->). split.
  - symmetry. apply (process_args_suffix table (length argv) argv toks (a :: rest));
      [lia | exact Htoks].
  - apply parse_args_tokens.
    apply (process_args_tail table (length argv) argv toks a rest rest');
      [lia | exact Htoks].
Qed.

Lemma options_after_command_untouched_witness :
  let table := option_parser (cli_of (sample_world ∅)) in
  exists options,
    parse_args table ["-R"; "2"; "put"; "-v"; "--retries"; "9"]
      = inr (options, ["put"; "-v"; "--retries"; "9"])
    /\ parse_args table ["-R"; "2"; "put"; "c/o"] = inr (options, ["put"; "c/o"])
    /\ attr options "retries" = PyStr "2"
    /\ attr options "verbose" = PyNone.
Proof.
  intros table.
  exists (options_of (cli_of (sample_world ∅)) ["-R"; "2"; "put"; "-v"; "--retries"; "9"]).
  assert (parse_args table ["-R"; "2"; "put"; "-v"; "--retries"; "9"]
          = inr (options_of (cli_of (sample_world ∅))
                   ["-R"; "2"; "put"; "-v"; "--retries"; "9"],
                 ["put"; "-v"; "--retries"; "9"])) as H
    by (vm_compute; reflexivity).
  split; [exact H|].
  destruct (options_after_command_untouched table _ _ "put" ["-v"; "--retries"; "9"]
              ["c/o"] H) as [_ H'].
  split; [exact H'|]. split; vm_compute; reflexivity.
Defined.

(** X5. When the command is looked up, the main arguments recorded in
    the context followed by the arguments handed to the lookup are the
    original arguments: nothing is lost and nothing is added. *)
Theorem original_main_args_split w cli argv s s' args :
  configure w cli argv s = (s', Val args) ->
  original_main_args (st_context s') ++ args = original_args (st_context s')
  /\ original_args (st_context s') = argv.
Proof.
  intros H. apply configure_val_iff in H
    as (options & m & k & Hparse & _ & _ & _ & _ & _ & ->).
  apply parse_args_inv in Hparse as (toks & Htoks & _).
  assert (take (length argv - length args) argv ++ args = argv) as Hsplit
    by (apply (process_args_suffix (option_parser cli) (length argv) argv toks args);
        [lia | exact Htoks]).
  unfold prepared. destruct (truthy (attr options "verbose")); split; auto.
Qed.

Lemma original_main_args_split_witness :
  let w := sample_world ∅ in
  let s := fst (configure w (cli_of w) ["-v"; "-R"; "3"; "get"; "c"; "-v"]
                  (mk_state (cli_context (cli_of w)) [])) in
  original_main_args (st_context s) ++ ["get"; "c"; "-v"]
  = ["-v"; "-R"; "3"; "get"; "c"; "-v"].
Proof.
  intros w s.
  destruct (original_main_args_split w (cli_of w) ["-v"; "-R"; "3"; "get"; "c"; "-v"]
              (mk_state (cli_context (cli_of w)) []) s ["get"; "c"; "-v"])
    as [H1 H2]; [vm_compute; reflexivity|].
  rewrite H1, H2. reflexivity.
Defined.

(** ** The values of the options *)

Lemma lookup_opt_in table s o : lookup_opt table s = Some o -> In o table.
Proof. unfold lookup_opt. intros H. apply find_some in H. tauto. Qed.

Lemma long_candidates_in table s w o :
  In (w, o) (long_candidates table s) -> In o table.
Proof.
  unfold long_candidates. intros H. apply in_flat_map in H as (o' & Ho' & H).
  apply in_map_iff in H as (w' & [= _ <-] & _). exact Ho'.
Qed.

Lemma match_long_opt_in table s o : match_long_opt table s = inr o -> In o table.
Proof.
  unfold match_long_opt.
  destruct (find _ table) as [o'|] eqn:E.
  - intros [= <-]. apply find_some in E. tauto.
  - destruct (long_candidates table s) as [|[w o'] [|]] eqn:Ec; try discriminate.
    intros [= <-]. apply (long_candidates_in table s w o'). rewrite Ec. left. reflexivity.
Qed.

Lemma process_long_opt_ok table arg toks pending :
  process_long_opt table arg = inr (toks, pending) ->
  Forall (tok_ok table) toks
  /\ forall o, pending = Some o -> In o table /\ takes_value o = true.
Proof.
  unfold process_long_opt.
  destruct (match split_eq arg with Some (a, b) => (a, Some b) | None => (arg, None) end)
    as [s explicit].
  destruct (match_long_opt table s) as [e|o] eqn:E; [discriminate|].
  apply match_long_opt_in in E.
  destruct (takes_value o) eqn:Et; destruct explicit as [v|]; try discriminate;
    intros [= <- <-]; split.
  - constructor; [|constructor]. split; [exact E | eauto].
  - intros o' [=].
  - constructor.
  - intros o' [= <-]. auto.
  - constructor; [|constructor]. split; [exact E|]. cbn. rewrite Et. discriminate.
  - intros o' [=].
Qed.

Lemma process_short_opts_ok table chars :
  forall toks pending,
    process_short_opts table chars = inr (toks, pending) ->
    Forall (tok_ok table) toks
    /\ forall o, pending = Some o -> In o table /\ takes_value o = true.
Proof.
  induction chars as [|ch rest IH]; intros toks pending.
  - intros [= <- <-]. split; [constructor | intros o [=]].
  - cbn [process_short_opts].
    destruct (lookup_opt table _) as [o|] eqn:E; [|discriminate].
    apply lookup_opt_in in E.
    destruct (takes_value o) eqn:Et.
    + destruct rest; intros [= <- <-].
      * split; [constructor | intros o' [= <-]; auto].
      * split; [|intros o' [=]]. constructor; [|constructor].
        split; [exact E | eauto].
    + destruct (process_short_opts table rest) as [e|[toks' pending']] eqn:Er;
        [discriminate|].
      intros [= <- <-]. destruct (IH toks' pending' eq_refl) as [Hf Hp].
      split; [|exact Hp]. constructor; [|exact Hf].
      split; [exact E|]. cbn. rewrite Et. discriminate.
Qed.

Lemma classify_ok table arg toks pending :
  classify table arg = Some (inr (toks, pending)) ->
  Forall (tok_ok table) toks
  /\ forall o, pending = Some o -> In o table /\ takes_value o = true.
Proof.
  unfold classify. destruct (String.prefix "--" arg).
  - intros [= H]. apply process_long_opt_ok in H. exact H.
  - destruct arg as [|c rest0]; [discriminate|].
    destruct c as [[] [] [] [] [] [] [] []]; try discriminate.
    destruct rest0 as [|c' rest]; [discriminate|].
    intros [= H]. exact (process_short_opts_ok table (String c' rest) toks pending H).
Qed.

(** Every token met is an option of the table, with a value when the
    option takes one. *)
Lemma process_args_ok table n :
  forall argv toks args,
    (length argv <= n)%nat ->
    process_args table argv = inr (toks, args) ->
    Forall (tok_ok table) toks.
Proof.
  induction n as [|n IH]; intros argv toks args Hn.
  - destruct argv; [|cbn in Hn; lia]. intros [= <- _]. constructor.
  - destruct argv as [|arg tl]; [intros [= <- _]; constructor|].
    cbn [length] in Hn. rewrite process_args_cons.
    destruct (String.eqb arg "--"); [intros [= <- _]; constructor|].
    destruct (classify table arg) as [[e|[toks0 [o|]]]|] eqn:Ecl.
    + discriminate.
    + apply classify_ok in Ecl as [Hf Hp]. destruct (Hp o eq_refl) as [Ho Ht].
      destruct tl as [|v tl']; [discriminate|].
      destruct (process_args table tl') as [e|[toks' args']] eqn:E; [discriminate|].
      intros [= <- _]. apply Forall_app. split; [exact Hf|].
      constructor; [split; [exact Ho | eauto]|].
      apply (IH tl' toks' args'); [cbn in Hn; lia | exact E].
    + apply classify_ok in Ecl as [Hf _].
      destruct (process_args table tl) as [e|[toks' args']] eqn:E; [discriminate|].
      intros [= <- _]. apply Forall_app. split; [exact Hf|].
      apply (IH tl toks' args'); [lia | exact E].
    + intros [= <- _]. constructor.
Qed.

Lemma flag_value_from d toks v :
  flag_value d toks = Some v ->
  exists t, In t toks /\ dest (tok_opt t) = d /\ v = tok_pyval t.
Proof.
  induction toks as [|t toks IH] using rev_ind; [discriminate|].
  rewrite flag_value_snoc.
  destruct (String.eqb (dest (tok_opt t)) d) eqn:E.
  - apply String.eqb_eq in E. intros [= <-]. exists t.
    split; [apply in_or_app; right; left; reflexivity | auto].
  - intros H. destruct (IH H) as (t' & Hin & Hd & Hv). exists t'.
    split; [apply in_or_app; left; exact Hin | auto].
Qed.

Lemma foldl_process_is_Some d toks :
  forall values, is_Some (values !! d) -> is_Some (foldl process values toks !! d).
Proof.
  induction toks as [|t toks IH]; intros values H; [exact H|].
  cbn [foldl]. apply IH. unfold process.
  destruct (decide (dest (tok_opt t) = d)) as [<-|E].
  - rewrite lookup_insert_eq. eauto.
  - rewrite lookup_insert_ne by exact E. exact H.
Qed.

(** The options of the table whose destination takes a string are
    [store] options, as are [retries] and [concurrency]. *)
Lemma table_store env r k o :
  In o (parser_own_options ++ option_table env r k) ->
  In (dest o) ("retries" :: "concurrency" :: string_dests) ->
  act o = store.
Proof.
  intros Hin Hd. cbn in Hin.
  repeat (destruct Hin as [<- | Hin];
          [first [ reflexivity
                 | exfalso; cbn in Hd;
                   repeat (destruct Hd as [Hd | Hd]; [discriminate|]); exact Hd ]|]).
  destruct Hin.
Qed.

Lemma string_default env r k d :
  In d string_dests ->
  exists s, attr (defaults (parser_own_options ++ option_table env r k)) d = PyStr s.
Proof.
  intros Hd.
  destruct Hd as [<-|[<-|[<-|[<-|[<-|[<-|[<-|[<-|[]]]]]]]]].
  1: change (attr _ _) with (environ_get env "SWIFTLY_AUTH_URL" (PyStr "")).
  2: change (attr _ _) with (environ_get env "SWIFTLY_AUTH_USER" (PyStr "")).
  3: change (attr _ _) with (environ_get env "SWIFTLY_AUTH_KEY" (PyStr "")).
  4: change (attr _ _) with (environ_get env "SWIFTLY_AUTH_TENANT" (PyStr "")).
  5: change (attr _ _) with (environ_get env "SWIFTLY_AUTH_METHODS" (PyStr "")).
  6: change (attr _ _) with (environ_get env "SWIFTLY_REGION" (PyStr "")).
  7: change (attr _ _) with (environ_get env "SWIFTLY_DIRECT" (PyStr "")).
  8: change (attr _ _) with (environ_get env "SWIFTLY_PROXY" (PyStr "")).
  all: unfold environ_get;
    match goal with
    | |- context [?e !! ?v] => destruct (e !! v); eauto
    end.
Qed.

Lemma flag_values_are_text w cli argv toks args d v :
  CLI_init w = inr cli ->
  process_args (option_parser cli) argv = inr (toks, args) ->
  In d ("retries" :: "concurrency" :: string_dests) ->
  flag_value d toks = Some v -> exists s, v = PyStr s.
Proof.
  intros Hinit Htoks Hd Hv.
  apply CLI_init_inv in Hinit as (r & k & _ & _ & ->). cbn [option_parser] in *.
  pose proof (process_args_ok _ (length argv) argv toks args ltac:(lia) Htoks) as Hok.
  apply flag_value_from in Hv as (t & Hin & Hdest & ->).
  rewrite List.Forall_forall in Hok. destruct (Hok t Hin) as [Htab Hval].
  assert (act (tok_opt t) = store) as Hact
    by (apply (table_store (environ w) r k); [exact Htab | rewrite Hdest; exact Hd]).
  destruct Hval as [s Hs]; [unfold takes_value; rewrite Hact; reflexivity|].
  exists s. unfold tok_pyval. rewrite Hact, Hs. reflexivity.
Qed.

Lemma integer_options_typed w cli argv options args d :
  CLI_init w = inr cli ->
  parse_args (option_parser cli) argv = inr (options, args) ->
  In d ["retries"; "concurrency"] ->
  (exists z, attr options d = PyInt z) \/ (exists s, attr options d = PyStr s).
Proof.
  intros Hinit Hparse Hd.
  apply parse_args_inv in Hparse as (toks & Htoks & ->).
  rewrite attr_foldl_process.
  destruct (flag_value d toks) as [v|] eqn:Ev.
  - right. apply (flag_values_are_text w cli argv toks args d v Hinit Htoks); [|exact Ev].
    destruct Hd as [<- | [<- | []]]; [left | right; left]; reflexivity.
  - apply CLI_init_inv in Hinit as (r & k & _ & _ & ->). cbn [option_parser].
    left. destruct Hd as [<- | [<- | []]]; eexists; reflexivity.
Qed.

(** X6. After a successful parse every option the dispatcher reads is
    defined, the options that take text hold a string (the flag value,
    the environment value or the empty string), and [retries] and
    [concurrency] hold an integer or the text of their flag: reading
    them never meets a missing attribute or [None]. *)
Theorem options_defined_and_typed w cli argv options args :
  CLI_init w = inr cli ->
  parse_args (option_parser cli) argv = inr (options, args) ->
  (forall d, In d all_dests -> is_Some (options !! d))
  /\ (forall d, In d string_dests -> exists s, attr options d = PyStr s)
  /\ (forall d, In d ["retries"; "concurrency"] ->
        (exists z, attr options d = PyInt z) \/ (exists s, attr options d = PyStr s)).
Proof.
  intros Hinit Hparse.
  split; [|split];
    [| | intros d Hd; exact (integer_options_typed w cli argv options args d Hinit Hparse Hd)].
  - apply CLI_init_inv in Hinit as (r & k & _ & _ & ->). cbn [option_parser] in *.
    apply parse_args_inv in Hparse as (toks & Htoks & ->).
    intros d Hd. apply foldl_process_is_Some.
    cbn in Hd.
    repeat (destruct Hd as [<- | Hd]; [eexists; reflexivity|]). destruct Hd.
  - pose proof Hparse as Hp.
    apply parse_args_inv in Hp as (toks & Htoks & ->).
    intros d Hd. rewrite attr_foldl_process.
    destruct (flag_value d toks) as [v|] eqn:Ev.
    + apply (flag_values_are_text w cli argv toks args d v Hinit Htoks);
        [right; right; exact Hd | exact Ev].
    + apply CLI_init_inv in Hinit as (r & k & _ & _ & ->). cbn [option_parser].
      apply string_default, Hd.
Qed.

Lemma options_defined_and_typed_witness :
  let w := sample_world {[ "SWIFTLY_REGION" := "DFW" ]} in
  exists options,
    parse_args (option_parser (cli_of w)) ["-D"; "/v1/AUTH_test"; "get"]
      = inr (options, ["get"])
    /\ is_Some (options !! "cdn")
    /\ (exists s, attr options "direct" = PyStr s)
    /\ (exists s, attr options "region" = PyStr s).
Proof.
  intros w.
  exists (options_of (cli_of w) ["-D"; "/v1/AUTH_test"; "get"]).
  assert (parse_args (option_parser (cli_of w)) ["-D"; "/v1/AUTH_test"; "get"]
          = inr (options_of (cli_of w) ["-D"; "/v1/AUTH_test"; "get"], ["get"])) as H
    by (vm_compute; reflexivity).
  split; [exact H|].
  destruct (options_defined_and_typed w (cli_of w) _ _ _ ltac:(vm_compute; reflexivity) H)
    as (Hdef & Hstr & _).
  split; [apply Hdef; cbn; tauto|].
  split; apply Hstr; cbn; tauto.
Defined.

(** ** Before the command is looked up (lines 243-320) *)

(** X7. Every early return of [CLI.__call__] returns 1, writes one
    thing (the parser's error, the version, or the help), and leaves
    the context as it was but for the recorded start and arguments; a
    request for the version wins over a request for help and over a
    missing command. *)
Theorem early_return w cli argv s s' c :
  configure w cli argv s = (s', Return c) ->
  c = 1
  /\ st_context s' =
       set_original_args argv
         (set_original_begin (Some (time_time w)) (st_context s))
  /\ ((exists e, parse_args (option_parser cli) argv = inl e)
        /\ st_events s' = st_events s ++ [EParserError]
      \/ (exists options args,
            parse_args (option_parser cli) argv = inr (options, args)
            /\ truthy (attr options "version") = true)
         /\ st_events s' = st_events s ++ [EPrintVersion]
      \/ (exists options args,
            parse_args (option_parser cli) argv = inr (options, args)
            /\ truthy (attr options "version") = false
            /\ (args = [] \/ truthy (attr options "help") = true))
         /\ st_events s' = st_events s ++ [EPrintHelp]).
Proof.
  rewrite configure_unfold. cbn zeta.
  destruct (parse_args (option_parser cli) argv) as [e|[options args]] eqn:Hparse.
  - intros [= <- <-]. split; [reflexivity|]. split; [reflexivity|]. left. eauto.
  - destruct (truthy (attr options "version")) eqn:Hver.
    + intros [= <- <-]. split; [reflexivity|]. split; [reflexivity|].
      right. left. eauto.
    + destruct (_ || _) eqn:Hhelp.
      * intros [= <- <-]. split; [reflexivity|]. split; [reflexivity|].
        right. right. split; [|reflexivity].
        exists options, args. split; [reflexivity|]. split; [exact Hver|].
        apply orb_true_iff in Hhelp as [Hargs | Hhelp]; [|right; exact Hhelp].
        left. destruct args; [reflexivity | discriminate].
      * destruct (build_client_manager _ _ _) as [e|m]; [discriminate|].
        destruct (int_ (attr options "concurrency")); discriminate.
Qed.

Lemma early_return_witness :
  let w := sample_world ∅ in
  let r := run_call w (cli_of w) ["--version"; "-h"; "-D"; "/v1/AUTH_test"; "get"] in
  res_events r = [EPrintVersion] /\ res_exit r = Exit 1
  /\ client_manager (res_context r) = None.
Proof.
  intros w r.
  destruct (early_return w (cli_of w) ["--version"; "-h"; "-D"; "/v1/AUTH_test"; "get"]
              (mk_state (cli_context (cli_of w)) [])
              (fst (configure w (cli_of w)
                      ["--version"; "-h"; "-D"; "/v1/AUTH_test"; "get"]
                      (mk_state (cli_context (cli_of w)) []))) 1)
    as (_ & Hctx & _); [vm_compute; reflexivity|].
  split; [vm_compute; reflexivity|]. split; [vm_compute; reflexivity|].
  change (res_context r) with
    (st_context (fst (configure w (cli_of w)
                        ["--version"; "-h"; "-D"; "/v1/AUTH_test"; "get"]
                        (mk_state (cli_context (cli_of w)) [])))).
  rewrite Hctx. reflexivity.
Defined.

Lemma int_typed_error v e :
  ((exists z, v = PyInt z) \/ (exists s, v = PyStr s)) ->
  int_ v = inl e ->
  exists s, v = PyStr s /\ int_of_str s = None
            /\ e = ValueError ("invalid literal for int() with base 10: " +:+ repr_str s).
Proof.
  intros [[z ->] | [s ->]]; cbn; [discriminate|].
  destruct (int_of_str s) eqn:E; [discriminate|]. intros [= <-]. eauto.
Qed.

(** X8. The set-up raises only when the value given to [--retries]
    or to [--concurrency] is not an integer literal: it is the
    [ValueError] of [int] on that text, nothing has been written, and
    for [--retries] no client manager has been stored while for
    [--concurrency] the client manager is already in the context. *)
Theorem configure_raises w0 w cli argv s s' e :
  CLI_init w0 = inr cli ->
  configure w cli argv s = (s', Raise e) ->
  st_events s' = st_events s
  /\ exists d v,
       In d ["retries"; "concurrency"]
       /\ attr (options_of cli argv) d = PyStr v
       /\ int_of_str v = None
       /\ e = ValueError ("invalid literal for int() with base 10: " +:+ repr_str v)
       /\ (d = "retries" ->
           client_manager (st_context s') = client_manager (st_context s))
       /\ (d = "concurrency" -> is_Some (client_manager (st_context s'))).
Proof.
  intros Hinit. rewrite configure_unfold. cbn zeta.
  destruct (parse_args (option_parser cli) argv) as [pe|[options args]] eqn:Hparse;
    [discriminate|].
  rewrite (options_of_parse _ _ _ _ Hparse).
  pose proof (fun d => integer_options_typed _ _ _ _ _ d Hinit Hparse) as Hint.
  destruct (truthy (attr options "version")); [discriminate|].
  destruct (_ || _); [discriminate|].
  destruct (build_client_manager _ _ _) as [e'|m] eqn:Hm.
  - intros [= <- <-]. split; [reflexivity|].
    unfold build_client_manager in Hm.
    destruct (int_ (attr options "retries")) as [e0|r] eqn:Hr;
      [|destruct (truthy (attr options "direct")); discriminate].
    injection Hm as <-.
    destruct (int_typed_error _ _ (Hint "retries" ltac:(cbn; tauto)) Hr)
      as (v & Hv & Hnone & ->).
    exists "retries", v. split; [cbn; tauto|]. split; [exact Hv|].
    split; [exact Hnone|]. split; [reflexivity|]. split; [|discriminate].
    intros _. unfold prepared. destruct (truthy (attr options "verbose")); reflexivity.
  - destruct (int_ (attr options "concurrency")) as [e0|k] eqn:Hk; [|discriminate].
    intros [= <- <-]. split; [reflexivity|].
    destruct (int_typed_error _ _ (Hint "concurrency" ltac:(cbn; tauto)) Hk)
      as (v & Hv & Hnone & ->).
    exists "concurrency", v. split; [cbn; tauto|]. split; [exact Hv|].
    split; [exact Hnone|]. split; [reflexivity|]. split; [discriminate|].
    intros _. cbn. eauto.
Qed.

Lemma configure_raises_witness :
  let w := sample_world ∅ in
  let r := run_call w (cli_of w) ["--concurrency"; "many"; "get"] in
  res_events r = []
  /\ res_exit r = Uncaught (ValueError "invalid literal for int() with base 10: 'many'")
  /\ is_Some (client_manager (res_context r)).
Proof.
  intros w r.
  destruct (configure_raises w w (cli_of w) ["--concurrency"; "many"; "get"]
              (mk_state (cli_context (cli_of w)) [])
              (fst (configure w (cli_of w) ["--concurrency"; "many"; "get"]
                      (mk_state (cli_context (cli_of w)) [])))
              (ValueError "invalid literal for int() with base 10: 'many'"))
    as (Hev & d & v & _ & _ & _ & _ & _ & _);
    [vm_compute; reflexivity | vm_compute; reflexivity |].
  split; [vm_compute; reflexivity|]. split; [vm_compute; reflexivity|].
  vm_compute. eauto.
Defined.

(** ** What an invocation can end with *)

Lemma configure_return_1 w cli argv s s' c :
  configure w cli argv s = (s', Return c) -> c = 1.
Proof.
  rewrite configure_unfold. cbn zeta.
  destruct (parse_args (option_parser cli) argv) as [e|[options args]];
    [intros [= _ <-]; reflexivity|].
  destruct (truthy (attr options "version")); [intros [= _ <-]; reflexivity|].
  destruct (_ || _); [intros [= _ <-]; reflexivity|].
  destruct (build_client_manager _ _ _) as [e|m]; [discriminate|].
  destruct (int_ (attr options "concurrency")); discriminate.
Qed.

Lemma configure_raise_quiet w0 w cli argv s s' e :
  CLI_init w0 = inr cli ->
  configure w cli argv s = (s', Raise e) ->
  st_events s' = st_events s /\ exc_class e = "ValueError".
Proof.
  intros Hinit. rewrite configure_unfold. cbn zeta.
  destruct (parse_args (option_parser cli) argv) as [pe|[options args]] eqn:Hparse;
    [discriminate|].
  pose proof (fun d => integer_options_typed _ _ _ _ _ d Hinit Hparse) as Hint.
  destruct (truthy (attr options "version")); [discriminate|].
  destruct (_ || _); [discriminate|].
  destruct (build_client_manager _ _ _) as [e'|m] eqn:Hm.
  - intros [= <- <-]. split; [reflexivity|].
    unfold build_client_manager in Hm.
    destruct (int_ (attr options "retries")) as [e0|r] eqn:Hr;
      [|destruct (truthy (attr options "direct")); discriminate].
    injection Hm as <-.
    destruct (int_typed_error _ _ (Hint "retries" ltac:(cbn; tauto)) Hr)
      as (v & _ & _ & ->). reflexivity.
  - destruct (int_ (attr options "concurrency")) as [e0|k] eqn:Hk; [|discriminate].
    intros [= <- <-]. split; [reflexivity|].
    destruct (int_typed_error _ _ (Hint "concurrency" ltac:(cbn; tauto)) Hk)
      as (v & _ & _ & ->). reflexivity.
Qed.

Lemma run_call_cases w cli argv :
  (exists s c, configure w cli argv (mk_state (cli_context cli) []) = (s, Return c)
               /\ run_call w cli argv = mk_result (st_context s) (st_events s) (Exit c))
  \/ (exists s e, configure w cli argv (mk_state (cli_context cli) []) = (s, Raise e)
                  /\ run_call w cli argv
                     = mk_result (st_context s) (st_events s) (Uncaught e))
  \/ (exists s tok rest,
        configure w cli argv (mk_state (cli_context cli) []) = (s, Val (tok :: rest))
        /\ ((commands cli !! resolve_alias tok = None
             /\ res_exit (run_call w cli argv) = Exit 1
             /\ invoked (res_events (run_call w cli argv)) = [])
            \/ exists inst,
                 commands cli !! resolve_alias tok = Some inst
                 /\ run_call w cli argv
                    = finish (st_context s) (resolve_alias tok) rest
                        (run inst rest (st_context s)))).
Proof.
  destruct (configure w cli argv (mk_state (cli_context cli) [])) as [s [args|c|e]] eqn:H.
  - right. right.
    pose proof H as Hv. apply configure_val_iff in Hv
      as (options & m & k & _ & _ & Hargs & _).
    destruct args as [|tok rest]; [contradiction|].
    exists s, tok, rest. split; [reflexivity|].
    destruct (commands cli !! resolve_alias tok) as [inst|] eqn:Hcmd.
    + right. exists inst. split; [reflexivity|].
      apply (run_call_found w cli argv s tok rest inst H Hcmd).
    + left. split; [reflexivity|].
      rewrite (run_call_dispatch _ _ _ _ _ H). unfold dispatch. rewrite Hcmd.
      unfold_monad. cbn. auto.
  - left. exists s, c. split; [reflexivity|]. unfold run_call, call, bind.
    rewrite H. reflexivity.
  - right. left. exists s, e. split; [reflexivity|]. unfold run_call, call, bind.
    rewrite H. reflexivity.
Qed.

(** X9. Of its own, the dispatcher raises to its caller nothing but
    the [ValueError] of a non-integer [--retries] or [--concurrency]
    (and then nothing was written and no command ran); any other
    error that leaves [CLI.__call__] was raised by the command and is
    not an [Exception]. *)
Theorem uncaught_origin w0 w cli argv e :
  CLI_init w0 = inr cli ->
  res_exit (run_call w cli argv) = Uncaught e ->
  (exc_class e = "ValueError" /\ res_events (run_call w cli argv) = [])
  \/ exists s tok rest inst evs,
       configure w cli argv (mk_state (cli_context cli) []) = (s, Val (tok :: rest))
       /\ commands cli !! resolve_alias tok = Some inst
       /\ run inst rest (st_context s) = (evs, Escaped e).
Proof.
  intros Hinit Hexit.
  destruct (run_call_cases w cli argv)
    as [(s & c & _ & Hr) | [(s & e' & Hconf & Hr) | (s & tok & rest & Hconf & Hd)]].
  - rewrite Hr in Hexit. discriminate.
  - rewrite Hr in *. injection Hexit as ->. left.
    destruct (configure_raise_quiet w0 w cli argv _ s e Hinit Hconf) as [Hev Hcls].
    split; [exact Hcls | exact Hev].
  - destruct Hd as [(_ & Hone & _) | (inst & Hcmd & Hr)].
    + rewrite Hone in Hexit. discriminate.
    + right. rewrite Hr in Hexit.
      destruct (run inst rest (st_context s)) as [evs [|err|err]] eqn:Hrun;
        try discriminate.
      injection Hexit as ->. exists s, tok, rest, inst, evs. auto.
Qed.

Lemma uncaught_origin_witness :
  let w := sample_world ∅ in
  exc_class (ValueError "invalid literal for int() with base 10: 'x'") = "ValueError"
  /\ res_events (run_call w (cli_of w) ["-R"; "x"; "get"]) = [].
Proof.
  intros w.
  destruct (uncaught_origin w w (cli_of w) ["-R"; "x"; "get"]
              (ValueError "invalid literal for int() with base 10: 'x'"))
    as [H | (s & tok & rest & inst & evs & Hconf & _)];
    [vm_compute; reflexivity | vm_compute; reflexivity | exact H |].
  vm_compute in Hconf. discriminate.
Defined.

(** X10. An invocation returns 0 only after a command was found and
    invoked, and then only if the command returned normally or raised a
    failure whose own [code] is 0: parse errors, help, version and
    unknown commands never give 0. *)
Theorem exit_zero_origin w cli argv :
  res_exit (run_call w cli argv) = Exit 0 ->
  exists s tok rest inst evs,
    configure w cli argv (mk_state (cli_context cli) []) = (s, Val (tok :: rest))
    /\ commands cli !! resolve_alias tok = Some inst
    /\ (run inst rest (st_context s) = (evs, Done)
        \/ exists err, run inst rest (st_context s) = (evs, Failed err)
                       /\ exc_code err = Some 0).
Proof.
  intros Hexit.
  destruct (run_call_cases w cli argv)
    as [(s & c & Hconf & Hr) | [(s & e' & Hconf & Hr) | (s & tok & rest & Hconf & Hd)]].
  - rewrite Hr in Hexit. injection Hexit as ->.
    apply configure_return_1 in Hconf. discriminate.
  - rewrite Hr in Hexit. discriminate.
  - destruct Hd as [(_ & Hone & _) | (inst & Hcmd & Hr)].
    + rewrite Hone in Hexit. discriminate.
    + rewrite Hr in Hexit.
      destruct (run inst rest (st_context s)) as [evs [|err|err]] eqn:Hrun;
        try discriminate.
      * exists s, tok, rest, inst, evs. auto.
      * cbn in Hexit. injection Hexit as Hc. exists s, tok, rest, inst, evs.
        split; [exact Hconf|]. split; [exact Hcmd|]. right. exists err.
        split; [exact Hrun|]. unfold code_or_1 in Hc.
        destruct (exc_code err); [f_equal; exact Hc | discriminate].
Qed.

Lemma exit_zero_origin_witness :
  let w := sample_world ∅ in
  exists tok rest inst,
    commands (cli_of w) !! resolve_alias tok = Some inst
    /\ run inst rest
         (res_context (run_call w (cli_of w) ["for"; "c"; "do"; "head"]))
       = ([EOutput "fordo c do head"], Done).
Proof.
  intros w.
  destruct (exit_zero_origin w (cli_of w) ["for"; "c"; "do"; "head"])
    as (s & tok & rest & inst & evs & Hconf & Hcmd & H); [vm_compute; reflexivity|].
  vm_compute in Hconf. injection Hconf as <- <- <-.
  exists "for", ["c"; "do"; "head"], inst. split; [exact Hcmd|].
  vm_compute in Hcmd. injection Hcmd as <-. vm_compute. reflexivity.
Defined.

(** X11. A command that is not caught by the handler: when the
    command returns normally the dispatcher adds nothing to what the
    command did and returns 0; when it raises something that is not an
    [Exception] (as [sys.exit] does), nothing is written either and the
    error leaves [CLI.__call__] as it is. *)
Theorem completion_passes_through w cli argv s1 tok rest inst evs res :
  configure w cli argv (mk_state (cli_context cli) []) = (s1, Val (tok :: rest)) ->
  commands cli !! resolve_alias tok = Some inst ->
  run inst rest (st_context s1) = (evs, res) ->
  (forall err, res <> Failed err) ->
  let r := run_call w cli argv in
  res_events r = EInvoke (resolve_alias tok) rest :: evs
  /\ res_context r = st_context s1
  /\ res_exit r = match res with
                  | Escaped err => Uncaught err
                  | _ => Exit 0
                  end.
Proof.
  intros Hconf Hcmd Hrun Hres r. subst r.
  rewrite (run_call_found _ _ _ _ _ _ _ Hconf Hcmd), Hrun.
  destruct res as [|err|err]; [auto | | auto].
  exfalso. exact (Hres err eq_refl).
Qed.

Lemma completion_passes_through_witness :
  let w := sample_world ∅ in
  let r := run_call w (cli_of w) ["put"; "c/o"] in
  res_events r = [EInvoke "put" ["c/o"]; EOutput "put c/o"] /\ res_exit r = Exit 0.
Proof.
  intros w r.
  destruct (completion_passes_through w (cli_of w) ["put"; "c/o"]
              (fst (configure w (cli_of w) ["put"; "c/o"]
                      (mk_state (cli_context (cli_of w)) [])))
              "put" ["c/o"] (classes w "swiftly.cli.put.CLIPut")
              [EOutput "put c/o"] Done)
    as (Hev & _ & Hexit);
    [vm_compute; reflexivity | vm_compute; reflexivity | vm_compute; reflexivity
    | discriminate |].
  split; [exact Hev | exact Hexit].
Defined.

(** ** The run-time set-up a command finds (lines 266-320) *)

(** X12. When a command is looked up the context is complete: start
    time, eventlet switch, subprocess module, client manager and
    concurrency are all set; the client manager was built with
    [retries + 1] attempts and with the very eventlet switch the
    context holds. *)
Theorem context_complete w cli argv s s' args :
  configure w cli argv s = (s', Val args) ->
  let c := st_context s' in
  let options := options_of cli argv in
  exists m retries k,
    original_begin c = Some (time_time w)
    /\ eventlet c = Some (select_eventlet w options)
    /\ subprocess_module (io_manager c)
       = Some (select_subprocess w (select_eventlet w options))
    /\ client_manager c = Some m
    /\ eventlet_of m = select_eventlet w options
    /\ int_ (attr options "retries") = inr retries
    /\ attempts_of m = retries + 1
    /\ int_ (attr options "concurrency") = inr k
    /\ concurrency c = Some k
    /\ cdn c = attr options "cdn".
Proof.
  intros H c options. subst c options.
  apply configure_val_iff in H
    as (options & m & k & Hparse & _ & _ & _ & Hm & Hk & ->).
  rewrite (options_of_parse _ _ _ _ Hparse).
  pose proof Hm as Hb. unfold build_client_manager in Hb.
  destruct (int_ (attr options "retries")) as [e|r] eqn:Hr; [discriminate|].
  exists m, r, k.
  assert (eventlet_of m = select_eventlet w options /\ attempts_of m = r + 1) as [He Ha]
    by (destruct (truthy (attr options "direct")); injection Hb as <-; auto).
  unfold prepared. destruct (truthy (attr options "verbose")); cbn;
    repeat split; auto.
Qed.

Lemma context_complete_witness :
  let w := sample_world ∅ in
  let s := fst (configure w (cli_of w) ["-R"; "9"; "--concurrency"; "3"; "get"]
                  (mk_state (cli_context (cli_of w)) [])) in
  exists m,
    client_manager (st_context s) = Some m
    /\ attempts_of m = 10
    /\ concurrency (st_context s) = Some 3.
Proof.
  intros w s.
  destruct (context_complete w (cli_of w) ["-R"; "9"; "--concurrency"; "3"; "get"]
              (mk_state (cli_context (cli_of w)) []) s ["get"])
    as (m & r & k & _ & _ & _ & Hm & _ & Hr & Ha & Hk & Hc & _);
    [vm_compute; reflexivity|].
  exists m. split; [exact Hm|].
  vm_compute in Hr. injection Hr as <-. vm_compute in Hk. injection Hk as <-.
  split; [exact Ha | exact Hc].
Defined.

(** X13. The explicit switches decide before any detection:
    [--no-eventlet] turns eventlet off even when [--eventlet] is given
    too, and the standard subprocess module is used; [--eventlet]
    alone turns it on even when eventlet is not installed, and then the
    green subprocess module is used exactly when it can be imported. *)
Theorem eventlet_switches w cli argv s s' args :
  configure w cli argv s = (s', Val args) ->
  let c := st_context s' in
  let options := options_of cli argv in
  (truthy (attr options "no_eventlet") = true ->
     eventlet c = Some false
     /\ subprocess_module (io_manager c) = Some Subprocess)
  /\ (truthy (attr options "no_eventlet") = false ->
      truthy (attr options "eventlet") = true ->
      eventlet c = Some true
      /\ (subprocess_module (io_manager c) = Some GreenSubprocess
          <-> green_subprocess w = true)).
Proof.
  intros H c options. subst c options.
  apply configure_val_iff in H
    as (options & m & k & Hparse & _ & _ & _ & _ & _ & ->).
  rewrite (options_of_parse _ _ _ _ Hparse).
  assert (eventlet (prepared w options args
            (set_original_args argv
               (set_original_begin (Some (time_time w)) (st_context s))))
          = Some (select_eventlet w options)
          /\ subprocess_module (io_manager (prepared w options args
               (set_original_args argv
                  (set_original_begin (Some (time_time w)) (st_context s)))))
             = Some (select_subprocess w (select_eventlet w options))) as [He Hs]
    by (unfold prepared; destruct (truthy (attr options "verbose")); cbn; auto).
  cbn. rewrite He, Hs.
  unfold select_eventlet, select_subprocess. split.
  - intros ->. destruct (truthy (attr options "eventlet")); auto.
  - intros -> ->. split; [reflexivity|]. cbn.
    destruct (green_subprocess w); split; auto; discriminate.
Qed.

Lemma eventlet_switches_witness :
  let w := mk_world ∅ 1700000000%float None false "/tmp" sample_classes in
  let s := fst (configure w (cli_of w) ["--eventlet"; "get"]
                  (mk_state (cli_context (cli_of w)) [])) in
  let s' := fst (configure w (cli_of w) ["--no-eventlet"; "--eventlet"; "get"]
                   (mk_state (cli_context (cli_of w)) [])) in
  eventlet (st_context s) = Some true
  /\ eventlet (st_context s') = Some false.
Proof.
  intros w s s'. split.
  - destruct (eventlet_switches w (cli_of w) ["--eventlet"; "get"]
                (mk_state (cli_context (cli_of w)) []) s ["get"])
      as [_ H]; [vm_compute; reflexivity|].
    apply H; vm_compute; reflexivity.
  - destruct (eventlet_switches w (cli_of w) ["--no-eventlet"; "--eventlet"; "get"]
                (mk_state (cli_context (cli_of w)) []) s' ["get"])
      as [H _]; [vm_compute; reflexivity|].
    apply H. vm_compute. reflexivity.
Defined.

(** X14. Without a switch, the installed version is compared with
    ['0.11.0'] as text, not as numbers: every version [0.d...] whose
    minor number starts with a character after [1] (so 0.2 up to 0.9,
    all older than 0.11.0) turns eventlet on, and [0.10...] turns it
    off. *)
Theorem eventlet_version_as_text w options d rest :
  truthy (attr options "eventlet") = false ->
  truthy (attr options "no_eventlet") = false ->
  (eventlet_version w = Some (String "0" (String "." (String d rest))) ->
   (code "1" < code d)%N ->
   select_eventlet w options = true)
  /\ (eventlet_version w = Some (String "0" (String "." (String "1" (String "0" rest)))) ->
      select_eventlet w options = false).
Proof.
  intros He Hn. unfold select_eventlet. rewrite He, Hn. split.
  - intros -> Hd. cbn [str_ge].
    change (code "0" <? code "0")%N with false.
    change (code "." <? code ".")%N with false. cbn match.
    apply N.ltb_lt in Hd. rewrite Hd. reflexivity.
  - intros ->. reflexivity.
Qed.

Lemma eventlet_version_as_text_witness :
  let w := sample_world ∅ in
  select_eventlet w (options_of (cli_of w) ["get"]) = true.
Proof.
  intros w.
  apply (proj1 (eventlet_version_as_text w (options_of (cli_of w) ["get"]) "9" ".16"
                  ltac:(vm_compute; reflexivity) ltac:(vm_compute; reflexivity)));
    vm_compute; reflexivity.
Defined.

Lemma prefix_slash_append u x :
  u <> EmptyString -> String.prefix "/" (u +:+ x) = String.prefix "/" u.
Proof.
  destruct u as [|c u]; [contradiction|]. intros _.
  cbn [String.append String.prefix].
  destruct (ascii_dec "/" c); [|reflexivity].
  destruct u; destruct x; reflexivity.
Qed.

Lemma prefix_append a b : String.prefix a (a +:+ b) = true.
Proof.
  induction a as [|c a IH]; cbn [String.append String.prefix];
    [destruct b; reflexivity|].
  destruct (ascii_dec c c); [exact IH | contradiction].
Qed.

Lemma append_empty_r a : a +:+ EmptyString = a.
Proof. induction a; cbn [String.append]; congruence. Qed.

(** X15. The auth cache file: it is named only for the standard
    client with [--cache-auth] (the direct client never gets one); its
    name is the user name followed by [.swiftly], put under the
    temporary directory unless the user name starts with a slash, in
    which case the temporary directory is dropped. *)
Theorem auth_cache_file w options use_eventlet m :
  build_client_manager w options use_eventlet = inr m ->
  let user := match environ w !! "USER" with Some u => u | None => "user" end in
  (truthy (attr options "direct") = true -> auth_cache_path_of m = None)
  /\ (truthy (attr options "cache_auth") = false -> auth_cache_path_of m = None)
  /\ (truthy (attr options "direct") = false ->
      truthy (attr options "cache_auth") = true ->
      exists p,
        auth_cache_path_of m = Some p
        /\ (String.prefix "/" user = true -> p = user +:+ ".swiftly")
        /\ (String.prefix "/" user = false ->
            exists dir, p = dir +:+ user +:+ ".swiftly"
                        /\ String.prefix (tempdir w) dir = true)).
Proof.
  intros H user. unfold build_client_manager in H.
  destruct (int_ (attr options "retries")) as [e|r]; [discriminate|].
  destruct (truthy (attr options "direct")) eqn:Hd; injection H as <-;
    cbn [auth_cache_path_of].
  - split; [reflexivity|]. split; [reflexivity|]. discriminate.
  - split; [discriminate|]. split; [intros ->; reflexivity|].
    intros _ ->. eexists. split; [reflexivity|]. fold user. unfold path_join.
    split.
    + intros Hu.
      assert (user <> EmptyString) as Hne by (intros E; rewrite E in Hu; discriminate).
      rewrite (prefix_slash_append user ".swiftly" Hne), Hu. reflexivity.
    + intros Hu.
      assert (String.prefix "/" (user +:+ ".swiftly") = false) as E.
      { destruct user as [|c u] eqn:Eu; [reflexivity|].
        rewrite prefix_slash_append by discriminate. exact Hu. }
      rewrite E.
      destruct (String.eqb (tempdir w) "" || ends_with_slash (tempdir w)).
      * exists (tempdir w). split; [reflexivity|].
        rewrite <- (append_empty_r (tempdir w)) at 2. apply prefix_append.
      * exists (tempdir w +:+ "/"). split.
        -- rewrite append_assoc. reflexivity.
        -- apply prefix_append.
Qed.

Lemma auth_cache_file_witness :
  let w := mk_world {[ "USER" := "/srv/alice" ]} 1700000000%float None false "/tmp"
             sample_classes in
  exists m,
    build_client_manager w (options_of (cli_of w) ["-C"; "get"]) false = inr m
    /\ auth_cache_path_of m = Some "/srv/alice.swiftly".
Proof.
  intros w.
  assert (exists m, build_client_manager w (options_of (cli_of w) ["-C"; "get"]) false
                    = inr m) as [m Hm] by (vm_compute; eauto).
  exists m. split; [exact Hm|].
  destruct (auth_cache_file w _ false m Hm) as (_ & _ & H).
  destruct H as (p & -> & Hp & _); [vm_compute; reflexivity | vm_compute; reflexivity|].
  f_equal. rewrite Hp by (vm_compute; reflexivity). vm_compute. reflexivity.
Defined.

(** ** Diagnostic calls in sequence (lines 348-361) *)

Lemma _verbose_events format c now msg args kwargs evs res :
  _verbose format c now msg args kwargs = (evs, res) ->
  forallb on_debug evs = true
  /\ (res = Done -> verbosity_on c = true -> flushes evs = 1%nat)
  /\ (res <> Done -> flushes evs = 0%nat).
Proof.
  unfold _verbose. destruct (verbosity_on c).
  - destruct (original_begin c) as [begin|].
    + destruct (format msg args); intros [= <- <-]; cbn;
        (split; [reflexivity|]); split; try discriminate; try reflexivity;
        intros; try reflexivity; contradiction.
    + intros [= <- <-]. cbn. split; [reflexivity|]. split; [discriminate | reflexivity].
  - intros [= <- <-]. cbn. split; [reflexivity|]. split; [discriminate | contradiction].
Qed.

Lemma flushes_app a b : flushes (a ++ b) = (flushes a + flushes b)%nat.
Proof.
  induction a as [|e a IH]; [reflexivity|]. destruct e; cbn; rewrite ?IH; reflexivity.
Qed.

(** X16. Diagnostic calls made one after the other write to the debug
    streams only, and each completed call flushes exactly once: with
    verbosity on, the sequence completes exactly when there are as many
    flushes as calls, and a call that raises stops the sequence with
    fewer flushes than calls (its own line is left without its end and
    without a flush). *)
Theorem verbose_calls_flushed format c calls evs res :
  verbosity_on c = true ->
  verbose_calls format c calls = (evs, res) ->
  forallb on_debug evs = true
  /\ (res = Done <-> flushes evs = length calls)
  /\ (res <> Done -> (flushes evs < length calls)%nat).
Proof.
  intros Hon. revert evs res.
  induction calls as [|d calls IH]; intros evs res.
  - intros [= <- <-]. cbn. split; [reflexivity|]. split; [tauto | contradiction].
  - cbn [verbose_calls length].
    destruct (_verbose format c (diag_now d) (diag_msg d) (diag_args d) (diag_kwargs d))
      as [evs1 res1] eqn:H1.
    destruct (_verbose_events _ _ _ _ _ _ _ _ H1) as (Hd1 & Hdone1 & Hfail1).
    destruct res1 as [|err|err].
    + destruct (verbose_calls format c calls) as [evs2 res2] eqn:H2.
      destruct (IH evs2 res2 eq_refl) as (Hd2 & Hiff & Hlt).
      intros [= <- <-]. rewrite forallb_app, Hd1, Hd2, flushes_app.
      rewrite (Hdone1 eq_refl Hon). split; [reflexivity|]. split.
      * split; [intros E; apply Hiff in E; lia | intros E; apply Hiff; lia].
      * intros E. apply Hlt in E. lia.
    + intros [= <- <-]. rewrite Hfail1 by discriminate.
      split; [exact Hd1|]. split; [split; [discriminate | lia] | lia].
    + intros [= <- <-]. rewrite Hfail1 by discriminate.
      split; [exact Hd1|]. split; [split; [discriminate | lia] | lia].
Qed.

Lemma verbose_calls_flushed_witness :
  let calls := [mk_diag 1700000001.25%float "GET %s" [PyStr "/v1"] ∅;
                mk_diag 1700000001.5%float "two %d" [PyStr "x"] ∅;
                mk_diag 1700000002%float "never reached" [] ∅] in
  forallb on_debug (fst (verbose_calls sample_format context_on calls)) = true
  /\ (flushes (fst (verbose_calls sample_format context_on calls)) < 3)%nat.
Proof.
  intros calls.
  destruct (verbose_calls sample_format context_on calls) as [evs res] eqn:H.
  destruct (verbose_calls_flushed sample_format context_on calls evs res
              ltac:(reflexivity) H) as (Hd & _ & Hlt).
  split; [exact Hd|]. apply Hlt.
  vm_compute in H. injection H as _ <-. discriminate.
Defined.

(** ** What one call leaves for the next (lines 293-297) *)

(** X17. The set-up never turns verbosity off: whatever the arguments
    and however the set-up ends, verbosity that was on stays on; when
    the command is looked up, verbosity is on exactly if it was on
    before or [-v] is given now. *)
Theorem verbosity_never_reset w cli argv s s' out :
  configure w cli argv s = (s', out) ->
  (verbosity_on (st_context s) = true -> verbosity_on (st_context s') = true)
  /\ (forall args, out = Val args ->
        verbosity_on (st_context s')
        = verbosity_on (st_context s) || truthy (attr (options_of cli argv) "verbose")).
Proof.
  rewrite configure_unfold. cbn zeta.
  destruct (parse_args (option_parser cli) argv) as [e|[options args']] eqn:Hparse.
  - intros [= <- <-]. split; [auto | discriminate].
  - rewrite (options_of_parse _ _ _ _ Hparse).
    destruct (truthy (attr options "version"));
      [intros [= <- <-]; split; [auto | discriminate]|].
    destruct (_ || _); [intros [= <- <-]; split; [auto | discriminate]|].
    assert (forall c, verbosity_on (prepared w options args' c)
                      = verbosity_on c || truthy (attr options "verbose")) as Hp.
    { intros c. unfold prepared.
      destruct (truthy (attr options "verbose")); cbn;
        [rewrite orb_true_r | rewrite orb_false_r]; reflexivity. }
    assert (forall c0, verbosity_on (set_original_args argv
                                    (set_original_begin (Some (time_time w)) c0))
                       = verbosity_on c0) as H0 by reflexivity.
    destruct (build_client_manager _ _ _) as [e|m];
      [intros [= <- <-]; cbn [st_context]; rewrite Hp, H0; split;
         [intros ->; reflexivity | discriminate]|].
    destruct (int_ (attr options "concurrency")) as [e|k]; intros [= <- <-];
      cbn [st_context].
    + change (verbosity_on (set_cdn _ (set_client_manager _ ?c))) with (verbosity_on c).
      rewrite Hp, H0. split; [intros ->; reflexivity | discriminate].
    + change (verbosity_on (set_concurrency _ (set_cdn _ (set_client_manager _ ?c))))
        with (verbosity_on c).
      rewrite Hp, H0. split; [intros ->; reflexivity | intros ? _; reflexivity].
Qed.

Lemma verbosity_never_reset_witness :
  let w := sample_world ∅ in
  let first := run_call w (cli_of w) ["-v"; "get"; "c"] in
  let s := mk_state (cli_context (after_call (cli_of w) first)) [] in
  verbosity_on (st_context (fst (configure w (cli_of w) ["put"; "c/o"] s))) = true.
Proof.
  intros w first s.
  destruct (configure w (cli_of w) ["put"; "c/o"] s) as [s' out] eqn:H.
  destruct (verbosity_never_reset w (cli_of w) ["put"; "c/o"] s s' out H) as [Hkeep _].
  apply Hkeep. vm_compute. reflexivity.
Defined.

(** ** The help epilogue (lines 222-240) *)

Lemma split_char_length sep s :
  length (split_char sep s) = S (count_char sep s).
Proof.
  induction s as [|c s IH]; [reflexivity|]. cbn [split_char count_char].
  rewrite (Ascii.eqb_sym sep c). destruct (Ascii.eqb c sep).
  - cbn. rewrite IH. reflexivity.
  - destruct (split_char sep s); [discriminate|]. exact IH.
Qed.


Lemma split_once_count sep s :
  split_once sep s = None <-> count_char sep s = 0%nat.
Proof.
  induction s as [|c s IH]; [split; reflexivity|]. cbn [split_once count_char].
  rewrite (Ascii.eqb_sym sep c). destruct (Ascii.eqb c sep).
  - split; discriminate.
  - destruct (split_once sep s) as [[a b]|].
    + split; [discriminate|]. intros H. apply IH in H. discriminate.
    + split; [intros _; apply IH; reflexivity | reflexivity].
Qed.





(** X18. The entry of a command in the epilogue cannot be made, and an
    [IndexError] is raised, exactly when the first line of the usage
    text of the command holds no closing bracket or the usage text has
    fewer than four lines. *)
Theorem epilog_entry_fails fill usage :
  (exists e, epilog_entry fill usage = inl e)
  <-> (count_char "]" (first_line usage) = 0%nat \/ (line_ends usage < 3)%nat).
Proof.
  unfold epilog_entry, first_line, line_ends, main_line.
  pose proof (split_char_length (ascii_of_nat 10) usage) as Hlen.
  destruct (split_char (ascii_of_nat 10) usage) as [|first rest] eqn:Hs; [discriminate|].
  cbn [hd]. pose proof (split_once_count "]" first) as Hc.
  destruct (split_once "]" first) as [[a b]|].
  - destruct (Nat.ltb_spec (length (first :: rest)) 4) as [Hlt|Hge].
    + split; [intros _; right; lia | eauto].
    + split; [intros [e He]; discriminate|].
      intros [H0 | Hlt]; [apply Hc in H0; discriminate | lia].
  - split; [intros _; left; apply Hc; reflexivity | eauto].
Qed.

Lemma epilog_entry_fails_witness :
  exists e, epilog_entry sample_fill ("Usage: swiftly get" +:+ newline +:+ newline
                                      +:+ "Options:" +:+ newline +:+ "  none") = inl e.
Proof.
  apply (proj2 (epilog_entry_fails sample_fill _)). left. vm_compute. reflexivity.
Defined.



Lemma str_ge_total a b : str_ge a b = false -> str_ge b a = true.
Proof.
  revert b. induction a as [|c a IH]; intros [|d b]; cbn [str_ge];
    try discriminate; try reflexivity.
  destruct (N.ltb_spec (code d) (code c)) as [H1|H1]; [discriminate|].
  destruct (N.ltb_spec (code c) (code d)) as [H2|H2]; [reflexivity|].
  apply IH.
Qed.

Lemma insert_sorted_ascending x l :
  ascending l = true -> ascending (insert_sorted x l) = true.
Proof.
  induction l as [|y l IH]; [reflexivity|]. intros Hl. cbn [insert_sorted].
  destruct (str_le x y) eqn:E.
  - cbn [ascending]. rewrite E. exact Hl.
  - assert (str_le y x = true) as Hyx by (apply str_ge_total; exact E).
    assert (ascending l = true) as Hl'
      by (destruct l; [reflexivity | cbn [ascending] in Hl;
          apply andb_true_iff in Hl as [_ Hl]; exact Hl]).
    specialize (IH Hl').
    destruct l as [|z l]; [cbn; rewrite Hyx; reflexivity|].
    cbn [insert_sorted] in *. cbn [ascending] in Hl.
    apply andb_true_iff in Hl as [Hyz _].
    destruct (str_le x z).
    + cbn [ascending] in *. rewrite Hyx. exact IH.
    + cbn [ascending] in *. rewrite Hyz. exact IH.
Qed.

Lemma insert_sorted_perm x l : insert_sorted x l ≡ₚ x :: l.
Proof.
  induction l as [|y l IH]; [reflexivity|]. cbn [insert_sorted].
  destruct (str_le x y); [reflexivity|]. rewrite IH. apply Permutation_swap.
Qed.

Lemma sorted_ascending l : ascending (sorted l) = true.
Proof.
  induction l as [|x l IH]; [reflexivity|]. cbn. apply insert_sorted_ascending, IH.
Qed.

Lemma sorted_perm l : sorted l ≡ₚ l.
Proof.
  induction l as [|x l IH]; [reflexivity|]. cbn.
  rewrite insert_sorted_perm, IH. reflexivity.
Qed.

Lemma compose_epilog_inr get_usage fill cmds names :
  forall epilog text,
    compose_epilog get_usage fill cmds names epilog = inr text ->
    exists entries,
      Forall2 (fun n t => exists inst,
                 cmds !! n = Some inst /\ epilog_entry fill (get_usage inst) = inr t)
        names entries
      /\ text = epilog +:+ foldr String.append EmptyString entries.
Proof.
  induction names as [|n names IH]; intros epilog text.
  - intros [= <-]. exists []. split; [constructor|]. cbn. rewrite append_empty_r.
    reflexivity.
  - cbn [compose_epilog]. destruct (cmds !! n) as [inst|] eqn:Hn; [|discriminate].
    destruct (epilog_entry fill (get_usage inst)) as [e|t] eqn:Ht; [discriminate|].
    intros H. apply IH in H as (entries & Hall & ->).
    exists (t :: entries). split; [constructor; eauto|].
    cbn [foldr]. rewrite append_assoc. reflexivity.
Qed.

Lemma compose_epilog_inl get_usage fill cmds names :
  forall epilog,
    Forall (fun n => is_Some (cmds !! n)) names ->
    ((exists e, compose_epilog get_usage fill cmds names epilog = inl e)
     <-> exists n inst e, In n names /\ cmds !! n = Some inst
                          /\ epilog_entry fill (get_usage inst) = inl e)
    /\ forall e, compose_epilog get_usage fill cmds names epilog = inl e ->
         exists n inst, In n names /\ cmds !! n = Some inst
                        /\ epilog_entry fill (get_usage inst) = inl e.
Proof.
  induction names as [|n names IH]; intros epilog Hall.
  - cbn. split; [split|]; [intros [e H]; discriminate | intros (n & _ & _ & [] & _) |
                           discriminate].
  - inversion Hall as [|? ? [inst Hn] Hall']; subst. cbn [compose_epilog].
    rewrite Hn. destruct (epilog_entry fill (get_usage inst)) as [e|t] eqn:Ht.
    + split; [split|].
      * intros _. exists n, inst, e. split; [left; reflexivity | auto].
      * eauto.
      * intros e' [= <-]. exists n, inst. split; [left; reflexivity | auto].
    + destruct (IH (epilog +:+ t) Hall') as [Hiff Hwhich]. split; [split|].
      * intros H. apply Hiff in H as (n' & inst' & e & Hin & H1 & H2).
        exists n', inst', e. split; [right; exact Hin | auto].
      * intros (n' & inst' & e & [<- | Hin] & H1 & H2).
        -- rewrite Hn in H1. injection H1 as <-. rewrite Ht in H2. discriminate.
        -- apply Hiff. eauto 6.
      * intros e H. apply Hwhich in H as (n' & inst' & Hin & H1 & H2).
        exists n', inst'. split; [right; exact Hin | auto].
Qed.

Lemma sorted_keys_registered (cmds : gmap string command) :
  Forall (fun n => is_Some (cmds !! n)) (sorted (map fst (map_to_list cmds))).
Proof.
  rewrite List.Forall_forall. intros n Hn. apply list_elem_of_In in Hn.
  rewrite sorted_perm in Hn. apply list_elem_of_fmap in Hn as ([k inst] & -> & Hin).
  apply elem_of_map_to_list in Hin. cbn. eauto.
Qed.

(** X20. Building the epilogue fails exactly when the entry of some
    registered command cannot be made, and then with the error of such
    an entry (an [IndexError]): one command with an unexpected usage
    text makes the construction of the [CLI] object fail. *)
Theorem raw_epilog_fails get_usage fill cmds :
  ((exists e, raw_epilog get_usage fill cmds = inl e)
   <-> exists n inst e, cmds !! n = Some inst
                        /\ epilog_entry fill (get_usage inst) = inl e)
  /\ forall e, raw_epilog get_usage fill cmds = inl e ->
       exc_class e = "IndexError"
       /\ exists n inst, cmds !! n = Some inst
                         /\ epilog_entry fill (get_usage inst) = inl e.
Proof.
  unfold raw_epilog.
  destruct (compose_epilog_inl get_usage fill cmds _ ("Commands:" +:+ newline)
              (sorted_keys_registered cmds)) as [Hiff Hwhich].
  split; [split|].
  - intros H. apply Hiff in H as (n & inst & e & _ & H). eauto.
  - intros (n & inst & e & Hn & He). apply Hiff. exists n, inst, e.
    split; [|auto]. apply list_elem_of_In. rewrite sorted_perm.
    apply list_elem_of_fmap. exists (n, inst). split; [reflexivity|].
    apply elem_of_map_to_list. exact Hn.
  - intros e H. apply Hwhich in H as (n & inst & _ & Hn & He).
    split; [|eauto]. revert He. unfold epilog_entry, main_line.
    destruct (split_char _ _) as [|first rest]; [intros [= <-]; reflexivity|].
    destruct (split_once "]" first) as [[a b]|]; [|intros [= <-]; reflexivity].
    destruct (_ <? _)%nat; [intros [= <-]; reflexivity | discriminate].
Qed.

Lemma raw_epilog_fails_witness :
  exists e, raw_epilog (fun _ => "Usage: get") sample_fill
              (commands (cli_of (sample_world ∅))) = inl e.
Proof.
  apply (proj2 (proj1 (raw_epilog_fails (fun _ => "Usage: get") sample_fill
                         (commands (cli_of (sample_world ∅)))))).
  exists "get", (sample_classes "swiftly.cli.get.CLIGet"),
         (IndexError "list index out of range").
  split; vm_compute; reflexivity.
Defined.

(** X21. The epilogue starts with the line [Commands:] and then holds
    the entry of every registered command, each once, in ascending
    order of the names. *)
Theorem raw_epilog_in_order get_usage fill cmds text :
  raw_epilog get_usage fill cmds = inr text ->
  exists names entries,
    names ≡ₚ map fst (map_to_list cmds)
    /\ ascending names = true
    /\ Forall2 (fun n t => exists inst,
                  cmds !! n = Some inst /\ epilog_entry fill (get_usage inst) = inr t)
         names entries
    /\ text = "Commands:" +:+ newline +:+ foldr String.append EmptyString entries.
Proof.
  unfold raw_epilog. intros H.
  apply compose_epilog_inr in H as (entries & Hall & ->).
  exists (sorted (map fst (map_to_list cmds))), entries.
  split; [apply sorted_perm|]. split; [apply sorted_ascending|].
  split; [exact Hall|]. rewrite append_assoc. reflexivity.
Qed.

Lemma raw_epilog_in_order_witness :
  let cmds := commands (cli_of (sample_world ∅)) in
  exists (names entries : list string),
    names ≡ₚ map fst (map_to_list cmds)
    /\ ascending names = true
    /\ length entries = length names.
Proof.
  intros cmds.
  destruct (raw_epilog_in_order sample_usage sample_fill cmds
              (match raw_epilog sample_usage sample_fill cmds with
               | inr t => t | inl _ => EmptyString end))
    as (names & entries & Hp & Ha & Hall & _); [vm_compute; reflexivity|].
  exists names, entries. split; [exact Hp|]. split; [exact Ha|].
  symmetry. exact (Forall2_length _ _ _ Hall).
Defined.
